(** * Blood Eagle service worker: a shallow embedding of [service-worker.js]

    The worker is a set of event handlers over the browser's Cache Storage.
    Each handler is embedded as a computation in a small state-and-exception
    monad whose state is the cache storage together with the trace of
    the platform calls the script makes (its [fetch] requests, its
    [cache.addAll] calls, notifications, messages, console lines).  Promise chains become
    sequential composition, a rejected promise becomes a thrown error, and
    [.catch] / [try .. catch] becomes [try_catch].  A handler runs to
    completion before the next event is taken; interleavings of suspended
    handlers are not modelled.

    A cache is keyed by the identity of a request, its URL without the
    fragment, as the Cache API compares requests.  The requests that
    [cache.addAll] issues belong to the platform, which sends them
    concurrently and in no fixed order: the trace records the call with
    its targets, not the single requests.

    Platform services the script only calls (URL origin, [JSON.parse],
    [JSON.stringify], [Date] parsing, the Background Sync capability) are
    section variables; the network and the clock are per-event inputs.
    Cache operations themselves do not fail.  The [push] and
    [notificationclick] listeners, which never touch the caches, are
    functions to the calls they make; the [error] and
    [unhandledrejection] listeners, which only log, are left out.

    The properties of the specification are the theorems whose comments
    start with the claim number, C1 to C10, followed by further
    properties of the handlers, X1 to X20; the closing part runs them on
    a concrete platform. *)

From stdpp Require Import gmap strings list fin_maps.
From Stdlib Require Import ZArith String Ascii Bool Lia DecimalString.

Open Scope string_scope.
Open Scope Z_scope.

Set Warnings "-register-all,-clear-no-such-hyp".
Set Default Proof Using "Type*".

(** ** JavaScript strings *)

Module JSString.

(** [s.startsWith(p)] *)
Definition startsWith (s p : string) : bool := String.prefix p s.

(** [s.includes(p)] *)
Fixpoint includes (s p : string) : bool :=
  String.prefix p s ||
  match s with
  | EmptyString => false
  | String _ s' => includes s' p
  end.

(** [s.split(sep)] for a non-empty separator: [skip] counts the
    characters of a separator occurrence still to be dropped and [cur]
    is the piece being accumulated. *)
Fixpoint split_go (sep : string) (skip : nat) (cur s : string) : list string :=
  match s with
  | EmptyString => [cur]
  | String c s' =>
      match skip with
      | S k => split_go sep k cur s'
      | O =>
          if String.prefix sep s
          then cur :: split_go sep (Nat.pred (String.length sep)) EmptyString s'
          else split_go sep O (cur ++ String c EmptyString) s'
      end
  end.

Definition split (s sep : string) : list string := split_go sep O EmptyString s.

Definition lower_ascii (c : ascii) : ascii :=
  let n := nat_of_ascii c in
  if ((65 <=? n)%nat && (n <=? 90)%nat)%bool then ascii_of_nat (n + 32) else c.

Fixpoint toLowerCase (s : string) : string :=
  match s with
  | EmptyString => EmptyString
  | String c s' => String (lower_ascii c) (toLowerCase s')
  end.

End JSString.

(** ** JavaScript values

    The values that travel through [postMessage] and [JSON]: numbers are
    restricted to integers. *)

Inductive JSval : Type :=
| VUndefined
| VNull
| VBool (b : bool)
| VNum (n : Z)
| VStr (s : string)
| VArr (items : list JSval)
| VObj (fields : list (string * JSval)).

Module JS.

(** [ToBoolean]: what [if (v)], [v && ..] and [v || ..] test. *)
Definition truthy (v : JSval) : bool :=
  match v with
  | VUndefined | VNull => false
  | VBool b => b
  | VNum n => negb (n =? 0)
  | VStr s => negb (String.eqb s EmptyString)
  | VArr _ | VObj _ => true
  end.

Fixpoint assoc (name : string) (fields : list (string * JSval)) : option JSval :=
  match fields with
  | [] => None
  | (k, v) :: rest => if String.eqb k name then Some v else assoc name rest
  end.

(** [v.name] for the property names the script reads ([type],
    [gameData], [version]): [None] is the [TypeError] raised on
    [undefined] and [null]; a missing property reads as [undefined]. *)
Definition get (v : JSval) (name : string) : option JSval :=
  match v with
  | VUndefined | VNull => None
  | VObj fields => Some (default VUndefined (assoc name fields))
  | _ => Some VUndefined
  end.

(** [a === b]; arrays and objects are compared by reference, and the
    operands compared in the script are never the same reference. *)
Definition strict_eq (a b : JSval) : bool :=
  match a, b with
  | VUndefined, VUndefined => true
  | VNull, VNull => true
  | VBool x, VBool y => Bool.eqb x y
  | VNum x, VNum y => x =? y
  | VStr x, VStr y => String.eqb x y
  | _, _ => false
  end.

End JS.

(** ** Responses and requests *)

Inductive ResponseType := basic | cors | default_type | error_type | opaque | opaqueredirect.

Record Response := mkResponse {
  status : Z;
  rtype : ResponseType;
  headers : list (string * string);
  body : string
}.

(** [response.headers.get(name)]: header names are case-insensitive. *)
Definition headers_get (hs : list (string * string)) (name : string) : option string :=
  snd <$> find (fun h => String.eqb (JSString.toLowerCase (fst h)) (JSString.toLowerCase name)) hs.

(** [response.ok] *)
Definition ok (r : Response) : bool := (200 <=? status r) && (status r <=? 299).

(** [new Response(text, { headers })]: status 200, type ["default"]. *)
Definition new_Response (text : string) (hs : list (string * string)) : Response :=
  {| status := 200; rtype := default_type; headers := hs; body := text |}.

Definition ResponseType_eqb (a b : ResponseType) : bool :=
  match a, b with
  | basic, basic | cors, cors | default_type, default_type
  | error_type, error_type | opaque, opaque | opaqueredirect, opaqueredirect => true
  | _, _ => false
  end.

(** The request of a fetch event; [url] is absolute. *)
Record Request := mkRequest {
  method : string;
  url : string;
  mode : string
}.

(** The network as seen during one event: the answer to a request with a
    given method and URL, [None] when the fetch fails (offline). *)
Definition Network := string → string → option Response.

(** ** Request identity

    [cache.match], [cache.put], [cache.delete] and [caches.match] compare
    the URL of their argument with the URL of a stored request with the
    fragments excluded: a cache holds at most one entry for the URLs that
    differ in the fragment only.  The identity of a request is its URL up
    to the first ['#']. *)

Fixpoint without_fragment (u : string) : string :=
  match u with
  | EmptyString => EmptyString
  | String c rest =>
      if Ascii.eqb c "#" then EmptyString else String c (without_fragment rest)
  end.

Lemma without_fragment_idemp (u : string) :
  without_fragment (without_fragment u) = without_fragment u.
Proof.
  induction u as [|c u IH]; [reflexivity|]. simpl.
  destruct (Ascii.eqb c "#") eqn:E; [reflexivity|]. simpl. by rewrite E, IH.
Qed.

(** The keys of a cache: the URLs without a fragment. *)
Definition Key : Type := { k : string | without_fragment k = k }.

#[global] Instance Key_eq_dec : EqDecision Key := sig_eq_dec _.
#[global] Instance Key_countable : Countable Key := sig_countable _.

Definition identity (u : string) : Key :=
  exist _ (without_fragment u) (without_fragment_idemp u).

(** ** Cache Storage

    A cache maps the identity of a GET request to the stored response;
    the storage lists the named caches in creation order, which is the
    order [caches.match] searches them in. *)

Abbreviation Cache := (gmap Key Response).
Abbreviation CacheStorage := (list (string * Cache)).

Module CacheStorageOps.

Fixpoint lookup_cache (name : string) (st : CacheStorage) : option Cache :=
  match st with
  | [] => None
  | (n, c) :: rest => if String.eqb n name then Some c else lookup_cache name rest
  end.

(** [caches.has(name)] *)
Definition has (name : string) (st : CacheStorage) : bool :=
  bool_decide (is_Some (lookup_cache name st)).

(** [caches.open(name)]: creates the cache when it does not exist. *)
Definition open (name : string) (st : CacheStorage) : CacheStorage :=
  match lookup_cache name st with
  | Some _ => st
  | None => st ++ [(name, ∅)]
  end.

(** [caches.delete(name)] *)
Definition delete (name : string) (st : CacheStorage) : CacheStorage :=
  filter (fun nc => negb (String.eqb (fst nc) name)) st.

(** [caches.keys()] *)
Definition keys (st : CacheStorage) : list string := fst <$> st.

(** [caches.match(url)]: the first cache, in creation order, holding
    an entry for the identity of the request. *)
Fixpoint match_ (u : string) (st : CacheStorage) : option Response :=
  match st with
  | [] => None
  | (_, c) :: rest =>
      match c !! identity u with
      | Some r => Some r
      | None => match_ u rest
      end
  end.

(** Replace the content of every cache called [name]. *)
Definition update (name : string) (f : Cache → Cache) (st : CacheStorage) : CacheStorage :=
  (fun nc => if String.eqb (fst nc) name then (fst nc, f (snd nc)) else nc) <$> st.

End CacheStorageOps.

(** ** Observable platform calls *)

Inductive Effect :=
| NetFetch (meth target : string) (payload : option string)
| CacheAddAll (targets : list string)
| ShowNotification (title text icon : string) (actions : list (string * string))
| SkipWaiting
| ClientsClaim
| PostMessage (port : nat) (message : JSval)
| ConsoleLog (line : string)
| ConsoleError (line : string).

Definition is_NetFetch (e : Effect) : bool :=
  match e with NetFetch _ _ _ => true | _ => false end.
Definition is_CacheAddAll (e : Effect) : bool :=
  match e with CacheAddAll _ => true | _ => false end.
Definition is_ShowNotification (e : Effect) : bool :=
  match e with ShowNotification _ _ _ _ => true | _ => false end.
Definition is_SkipWaiting (e : Effect) : bool :=
  match e with SkipWaiting => true | _ => false end.
Definition is_PostMessage (e : Effect) : bool :=
  match e with PostMessage _ _ => true | _ => false end.

(** ** The handler monad *)

Record World := mkWorld {
  caches : CacheStorage;
  trace : list Effect
}.

Inductive Result (A : Type) :=
| Ok (a : A)
| Throw (e : string).
Arguments Ok {A} a.
Arguments Throw {A} e.

Definition M (A : Type) : Type := World → Result A * World.

#[export] Instance M_ret : MRet M := λ A a w, (Ok a, w).
#[export] Instance M_bind : MBind M := λ A B f m w,
  match m w with
  | (Ok a, w') => f a w'
  | (Throw e, w') => (Throw e, w')
  end.

Definition throw {A} (e : string) : M A := λ w, (Throw e, w).

(** [try { m } catch (e) { h e }], and [p.catch(h)] on a promise chain. *)
Definition try_catch {A} (m : M A) (h : string → M A) : M A := λ w,
  match m w with
  | (Ok a, w') => (Ok a, w')
  | (Throw e, w') => h e w'
  end.

Definition emit (e : Effect) : M unit := λ w,
  (Ok tt, {| caches := caches w; trace := trace w ++ [e] |}).

Definition get_caches : M CacheStorage := λ w, (Ok (caches w), w).

Definition modify_caches (f : CacheStorage → CacheStorage) : M unit := λ w,
  (Ok tt, {| caches := f (caches w); trace := trace w |}).

(** Run a handler on a storage, from an empty trace. *)
Definition run {A} (m : M A) (st : CacheStorage) : Result A * World :=
  m {| caches := st; trace := [] |}.

Definition result_of {A} (o : Result A * World) : Result A := fst o.
Definition caches_of {A} (o : Result A * World) : CacheStorage := caches (snd o).
Definition trace_of {A} (o : Result A * World) : list Effect := trace (snd o).

Module Platform.
Import CacheStorageOps.

Definition console_log (line : string) : M unit := emit (ConsoleLog line).
Definition console_error (line : string) : M unit := emit (ConsoleError line).
Definition skipWaiting : M unit := emit SkipWaiting.
Definition clients_claim : M unit := emit ClientsClaim.

(** [fetch(target, { method, body })]: rejects when the network fails. *)
Definition fetch (net : Network) (meth target : string) (payload : option string)
  : M Response :=
  emit (NetFetch meth target payload);;
  match net meth target with
  | Some r => mret r
  | None => throw "TypeError: Failed to fetch"
  end.

(** [caches.open(name)]; the handle of a cache is its name. *)
Definition caches_open (name : string) : M string :=
  modify_caches (open name);; mret name.

Definition caches_keys : M (list string) :=
  st ← get_caches; mret (keys st).

Definition caches_delete (name : string) : M bool :=
  st ← get_caches; modify_caches (delete name);; mret (has name st).

Definition caches_match (u : string) : M (option Response) :=
  st ← get_caches; mret (match_ u st).

(** [cache.match(u)]: the entry stored for the identity of [u]. *)
Definition cache_match (cache u : string) : M (option Response) :=
  st ← get_caches; mret (c ← lookup_cache cache st; c !! identity u).

(** [cache.put(u, r)]: replaces the entry stored for the identity of
    [u]. *)
Definition cache_put (cache u : string) (r : Response) : M unit :=
  modify_caches (update cache (insert (identity u) r)).

(** [cache.delete(u)] *)
Definition cache_delete (cache u : string) : M bool :=
  present ← cache_match cache u;
  modify_caches (update cache (base.delete (identity u)));;
  mret (bool_decide (is_Some present)).

(** [cache.keys()], as request URLs, each without the fragment its
    request was stored with; they are listed in the order of the map, not
    of insertion, which the callers do not depend on. *)
Definition cache_keys (cache : string) : M (list string) :=
  st ← get_caches;
  mret (match lookup_cache cache st with
        | Some c => proj1_sig <$> (map_to_list c).*1
        | None => []
        end).

Fixpoint put_all (cache : string) (entries : list (string * Response)) : M unit :=
  match entries with
  | [] => mret tt
  | (u, r) :: rest => cache_put cache u r;; put_all cache rest
  end.

(** The answers to the requests of [cache.addAll].  The platform issues
    these requests itself, concurrently, in no fixed order, and gives up
    the pending ones once one has failed: the trace records the call of
    [cache.addAll] with its targets, not the requests. *)
Definition request_all (net : Network) (targets : list string)
  : list (string * option Response) :=
  (λ u, (u, net "GET" u)) <$> targets.

(** A response [cache.addAll] accepts: fetched, with an ok status other
    than 206. *)
Definition addable (answer : option Response) : bool :=
  match answer with
  | Some r => ok r && negb (status r =? 206)
  | None => false
  end.

Fixpoint accepted (answers : list (string * option Response)) : option (list (string * Response)) :=
  match answers with
  | [] => Some []
  | (u, a) :: rest =>
      if addable a
      then match a, accepted rest with
           | Some r, Some rs => Some ((u, r) :: rs)
           | _, _ => None
           end
      else None
  end.

(** [cache.addAll(targets)]: the entries are written only when every
    request was answered acceptably, otherwise the promise rejects and
    nothing is written.  The targets of the script are seven distinct
    URLs, so the rejection for two requests of one identity does not
    arise. *)
Definition cache_addAll (net : Network) (cache : string) (targets : list string) : M unit :=
  emit (CacheAddAll targets);;
  match accepted (request_all net targets) with
  | Some entries => put_all cache entries
  | None => throw "TypeError: Request failed"
  end.

(** [event.ports[0].postMessage(message)] *)
Definition post_to_first_port (ports : list nat) (message : JSval) : M unit :=
  match ports with
  | p :: _ => emit (PostMessage p message)
  | [] => throw "TypeError: Cannot read properties of undefined"
  end.

(** Reading a property inside a handler. *)
Definition read (v : JSval) (name : string) : M JSval :=
  match JS.get v name with
  | Some x => mret x
  | None => throw "TypeError: Cannot read properties"
  end.

End Platform.

(** ** Push notifications

    The [push] and [notificationclick] listeners use neither the caches
    nor the network: they are functions from the event to the calls they
    make on the registration, the notification and the clients. *)

Module Notifications.

Record NotificationAction := mkAction {
  action : string;
  action_title : string;
  action_icon : option string
}.

Record NotificationOptions := mkOptions {
  options_body : string;
  options_icon : string;
  options_badge : string;
  vibrate : list Z;
  dateOfArrival : Z;
  primaryKey : Z;
  actions : list NotificationAction
}.

(** The options built by the [push] listener; [pushed] is
    [event.data.text()] when the event carries data and [now] the value of
    [Date.now()]. *)
Definition push_options (now : Z) (pushed : option string) : NotificationOptions :=
  {| options_body := match pushed with
                     | Some text => text
                     | None => "لعبة النسر الدموي - حدث جديد!"
                     end;
     options_icon := "/icon-192x192.png";
     options_badge := "/icon-192x192.png";
     vibrate := [100; 50; 100];
     dateOfArrival := now;
     primaryKey := 1;
     actions := [ {| action := "explore"; action_title := "العب الآن";
                     action_icon := Some "/icon-192x192.png" |};
                  {| action := "close"; action_title := "إغلاق";
                     action_icon := Some "/icon-192x192.png" |} ] |}.

Inductive PushEffect :=
| PushLog (line : string)
| ShowPushNotification (title : string) (options : NotificationOptions).

Definition on_push (now : Z) (pushed : option string) : list PushEffect :=
  [ PushLog "Service Worker: Push notification received";
    ShowPushNotification "النسر الدموي" (push_options now pushed) ].

Inductive ClickEffect :=
| ClickLog (line : string)
| CloseNotification
| OpenWindow (target : string).

(** [clicked] is [event.action]: the action of the button pressed, the
    empty string for a click on the notification itself. *)
Definition on_notificationclick (clicked : string) : list ClickEffect :=
  ClickLog "Service Worker: Notification clicked" ::
  CloseNotification ::
  if String.eqb clicked "explore" then [OpenWindow "/blood_eagle_game.html"]
  else if String.eqb clicked "close" then []
  else [OpenWindow "/"].

Definition opened (effects : list ClickEffect) : list string :=
  omap (λ e, match e with OpenWindow target => Some target | _ => None end) effects.

End Notifications.

(** ** A concrete platform

    An origin, a small JSON codec, a date parser and a few networks, on
    which the handlers can be run. *)

Module Demo.

Definition origin : string := "https://blood-eagle.example".
Definition base : string := "https://blood-eagle.example/".
Definition sync_supported : bool := true.

Definition quote : ascii := ascii_of_nat 34.

Definition is_digit (c : ascii) : bool :=
  let n := nat_of_ascii c in ((48 <=? n)%nat && (n <=? 57)%nat)%bool.

Fixpoint span (p : ascii → bool) (s : string) : string * string :=
  match s with
  | EmptyString => (EmptyString, EmptyString)
  | String c rest =>
      if p c then let (taken, more) := span p rest in (String c taken, more)
      else (EmptyString, s)
  end.

Fixpoint drop (n : nat) (s : string) : string :=
  match n, s with
  | S k, String _ rest => drop k rest
  | _, _ => s
  end.

Definition quoted (s : string) : string := String quote (s ++ String quote EmptyString).

(** Compact JSON text of a value; strings are written without escapes. *)
Fixpoint JSON_text (v : JSval) : string :=
  match v with
  | VUndefined | VNull => "null"
  | VBool true => "true"
  | VBool false => "false"
  | VNum n => NilZero.string_of_int (Z.to_int n)
  | VStr s => quoted s
  | VArr items =>
      "[" ++ (fix go (l : list JSval) : string :=
                match l with
                | [] => EmptyString
                | x :: rest =>
                    JSON_text x ++ match rest with [] => EmptyString | _ => "," ++ go rest end
                end) items ++ "]"
  | VObj fields =>
      "{" ++ (fix go (l : list (string * JSval)) : string :=
                match l with
                | [] => EmptyString
                | (k, x) :: rest =>
                    quoted k ++ ":" ++ JSON_text x
                    ++ match rest with [] => EmptyString | _ => "," ++ go rest end
                end) fields ++ "}"
  end.

Definition JSON_stringify (v : JSval) : option string :=
  match v with
  | VUndefined => None
  | _ => Some (JSON_text v)
  end.

Fixpoint parse_value (fuel : nat) (s : string) {struct fuel} : option (JSval * string) :=
  match fuel with
  | O => None
  | S fuel' =>
      if String.prefix "null" s then Some (VNull, drop 4 s)
      else if String.prefix "true" s then Some (VBool true, drop 4 s)
      else if String.prefix "false" s then Some (VBool false, drop 5 s)
      else
        match s with
        | EmptyString => None
        | String c rest =>
            if Ascii.eqb c quote then
              let (text, more) := span (λ x, negb (Ascii.eqb x quote)) rest in
              match more with
              | String _ more' => Some (VStr text, more')
              | EmptyString => None
              end
            else if Ascii.eqb c "[" then
              match rest with
              | String "]" more => Some (VArr [], more)
              | _ =>
                  match parse_items fuel' rest with
                  | Some (items, more) => Some (VArr items, more)
                  | None => None
                  end
              end
            else if Ascii.eqb c "{" then
              match rest with
              | String "}" more => Some (VObj [], more)
              | _ =>
                  match parse_fields fuel' rest with
                  | Some (fields, more) => Some (VObj fields, more)
                  | None => None
                  end
              end
            else
              let (number, more) := span (λ x, is_digit x || Ascii.eqb x "-") s in
              match number, NilZero.int_of_string number with
              | String _ _, Some i => Some (VNum (Z.of_int i), more)
              | _, _ => None
              end
        end
  end
with parse_items (fuel : nat) (s : string) {struct fuel} : option (list JSval * string) :=
  match fuel with
  | O => None
  | S fuel' =>
      match parse_value fuel' s with
      | Some (v, String "," more) =>
          match parse_items fuel' more with
          | Some (vs, more') => Some (v :: vs, more')
          | None => None
          end
      | Some (v, String "]" more) => Some ([v], more)
      | _ => None
      end
  end
with parse_fields (fuel : nat) (s : string) {struct fuel}
  : option (list (string * JSval) * string) :=
  match fuel with
  | O => None
  | S fuel' =>
      match s with
      | String c rest =>
          if Ascii.eqb c quote then
            let (key, more) := span (λ x, negb (Ascii.eqb x quote)) rest in
            match more with
            | String _ (String ":" more') =>
                match parse_value fuel' more' with
                | Some (v, String "," more'') =>
                    match parse_fields fuel' more'' with
                    | Some (fs, final) => Some ((key, v) :: fs, final)
                    | None => None
                    end
                | Some (v, String "}" more'') => Some ([(key, v)], more'')
                | _ => None
                end
            | _ => None
            end
          else None
      | EmptyString => None
      end
  end.

Definition JSON_parse (text : string) : option JSval :=
  match parse_value (S (String.length text)) text with
  | Some (v, EmptyString) => Some v
  | _ => None
  end.

(** The one timestamp the demo servers send: 1700000000000 ms. *)
Definition served_at : string := "Tue, 14 Nov 2023 22:13:20 GMT".

Definition Date_parse (text : string) : option Z :=
  if String.eqb text served_at then Some 1700000000000 else None.

Definition document (kind : ResponseType) (text : string) : Response :=
  {| status := 200; rtype := kind;
     headers := [("date", served_at); ("content-type", "text/html")];
     body := text |}.

Definition manifest (version : string) : Response :=
  {| status := 200; rtype := basic;
     headers := [("date", served_at); ("content-type", "application/json")];
     body := JSON_text (VObj [("name", VStr "Blood Eagle"); ("version", VStr version)]) |}.

(** A server that answers everything; the responses to the requests
    of other origins have the type [cors]. *)
Definition online (version : string) : Network := λ meth target,
  if String.eqb target (origin ++ "/manifest.json") then Some (manifest version)
  else if JSString.startsWith (without_fragment target) (origin ++ "/")
  then Some (document basic "<html></html>")
  else Some (document cors "/* css */").

Definition offline : Network := λ _ _, None.

(** A server on which only the manifest cannot be fetched. *)
Definition manifest_unreachable : Network := λ meth target,
  if String.eqb target (origin ++ "/manifest.json") then None
  else online "1.0.0" meth target.

Definition game_page : Request :=
  {| method := "GET"; url := origin ++ "/blood_eagle_game.html"; mode := "navigate" |}.

Definition other_page : Request :=
  {| method := "GET"; url := origin ++ "/credits.html"; mode := "navigate" |}.

Definition scores : Request :=
  {| method := "GET"; url := origin ++ "/scores.json"; mode := "cors" |}.

Definition progress : JSval :=
  VObj [("level", VNum 3); ("hero", VStr "Ragnar"); ("relics", VArr [VNum 1; VNum 7])].

End Demo.

(** ** The script *)

Section ServiceWorker.
Import Platform.

(** [self.location.origin], and the directory of the worker script URL
    against which relative URLs are resolved. *)
Variable origin : string.
Variable base : string.

(** [JSON.parse(text)], [None] for a [SyntaxError];
    [JSON.stringify(v)], [None] for the result [undefined]. *)
Variable JSON_parse : string → option JSval.
Variable JSON_stringify : JSval → option string.

(** [new Date(text).getTime()], [None] for [NaN] (an invalid date). *)
Variable Date_parse : string → option Z.

(** Whether [self.registration.sync] exists. *)
Variable sync_supported : bool.

Definition CACHE_NAME : string := "blood-eagle-v1.0.0".
Definition OFFLINE_URL : string := "index_new.html".

Definition STATIC_ASSETS : list string := [
  "/";
  "/index_new.html";
  "/blood_eagle_game.html";
  "/manifest.json";
  "/service-worker.js";
  "https://fonts.googleapis.com/css2?family=Tajawal:wght@300;400;700;900&family=Cairo:wght@300;400;600;700&display=swap";
  "https://cdnjs.cloudflare.com/ajax/libs/font-awesome/6.5.1/css/all.min.css"
].

(** URL resolution of the string arguments of [fetch], [cache.put],
    [cache.match] and [cache.addAll]. *)
Definition resolve (u : string) : string :=
  if JSString.includes u "://" then u
  else if JSString.startsWith u "/" then origin ++ u
  else base ++ u.

(** [response.json()] *)
Definition json (r : Response) : M JSval :=
  match JSON_parse (body r) with
  | Some v => mret v
  | None => throw "SyntaxError"
  end.

(** *** install *)

Definition on_install (net : Network) : M unit :=
  console_log "Service Worker: Installing...";;
  try_catch
    (cache ← caches_open CACHE_NAME;
     console_log "Service Worker: Caching files";;
     cache_addAll net cache (resolve <$> STATIC_ASSETS);;
     console_log "Service Worker: Files cached successfully";;
     skipWaiting)
    (λ _, console_error "Service Worker: Cache failed").

(** *** activate *)

Fixpoint delete_old_caches (cacheNames : list string) : M unit :=
  match cacheNames with
  | [] => mret tt
  | cacheName :: rest =>
      (if negb (String.eqb cacheName CACHE_NAME)
       then console_log "Service Worker: Deleting old cache";;
            caches_delete cacheName;; mret tt
       else mret tt);;
      delete_old_caches rest
  end.

Definition on_activate : M unit :=
  console_log "Service Worker: Activating...";;
  cacheNames ← caches_keys;
  delete_old_caches cacheNames;;
  console_log "Service Worker: Activated";;
  clients_claim.

(** *** fetch *)

(** What the handler does with a fetch event: leave it to the browser
    (no [respondWith]), or settle [respondWith] with a response or with
    [undefined], which the browser turns into a network error. *)
Inductive FetchOutcome :=
| NotIntercepted
| RespondWith (response : option Response).

(** The origin test of the handler: the URL starts with the origin of
    the worker, or contains one of the two external host names. *)
Definition intercepted_origin (u : string) : bool :=
  JSString.startsWith u origin
  || JSString.includes u "fonts.googleapis.com"
  || JSString.includes u "cdnjs.cloudflare.com".

(** A resolved [fetch] always yields a response, so the test
    [!fetchResponse] never holds; a failed fetch is the thrown error.
    The write to the cache is started without being awaited and takes
    place within the same step. *)
Definition on_fetch (net : Network) (request : Request) : M FetchOutcome :=
  if negb (String.eqb (method request) "GET") then mret NotIntercepted
  else if negb (intercepted_origin (url request)) then mret NotIntercepted
  else
    answer ← try_catch
      (response ← caches_match (url request);
       match response with
       | Some cached => mret (Some cached)
       | None =>
           fetchResponse ← fetch net (method request) (url request) None;
           if negb (status fetchResponse =? 200)
              || negb (ResponseType_eqb (rtype fetchResponse) basic)
           then mret (Some fetchResponse)
           else
             cache ← caches_open CACHE_NAME;
             cache_put cache (url request) fetchResponse;;
             mret (Some fetchResponse)
       end)
      (λ _,
         if String.eqb (mode request) "navigate"
         then caches_match (resolve OFFLINE_URL)
         else mret None);
    mret (RespondWith answer).

(** What the page receives for its request: [None] is a failed request. *)
Definition delivered (net : Network) (request : Request) (o : FetchOutcome)
  : option Response :=
  match o with
  | NotIntercepted => net (method request) (url request)
  | RespondWith answer => answer
  end.

(** The same for a finished run of the handler; a rejected
    [respondWith] promise is a failed request too. *)
Definition delivered_by (net : Network) (request : Request)
    (o : Result FetchOutcome * World) : option Response :=
  match result_of o with
  | Ok outcome => delivered net request outcome
  | Throw _ => None
  end.

(** *** stored game data *)

Definition getStoredGameData : M JSval :=
  try_catch
    (cache ← caches_open CACHE_NAME;
     gameDataCache ← cache_match cache (resolve "/game-data");
     match gameDataCache with
     | Some r => json r
     | None => mret VNull
     end)
    (λ _, console_error "Service Worker: Failed to get game data";; mret VNull).

Definition storeGameData (gameData : JSval) : M unit :=
  try_catch
    (cache ← caches_open CACHE_NAME;
     let response :=
       new_Response (default EmptyString (JSON_stringify gameData))
                    [("Content-Type", "application/json")] in
     cache_put cache (resolve "/game-data") response;;
     console_log "Service Worker: Game data stored")
    (λ _, console_error "Service Worker: Failed to store game data").

(** *** background sync *)

Definition syncGameProgress (net : Network) (gameData : JSval) : M unit :=
  try_catch
    (console_log "Service Worker: Syncing progress";;
     if sync_supported
     then
       response ← fetch net "POST" (resolve "/api/sync-progress") (JSON_stringify gameData);
       if ok response
       then console_log "Service Worker: Progress synced successfully"
       else mret tt
     else mret tt)
    (λ _, console_error "Service Worker: Failed to sync progress").

(** [CACHE_NAME.split('-v')[1]] *)
Definition currentVersion : JSval :=
  match JSString.split CACHE_NAME "-v" !! 1%nat with
  | Some s => VStr s
  | None => VUndefined
  end.

Definition update_notification : Effect :=
  ShowNotification "تحديث متاح" "يتوفر تحديث جديد للعبة النسر الدموي"
                   "/icon-192x192.png" [("update", "تحديث الآن")].

Definition checkForUpdates : M unit :=
  try_catch
    (cache ← caches_open CACHE_NAME;
     manifest ← cache_match cache (resolve "/manifest.json");
     match manifest with
     | Some m =>
         manifestData ← json m;
         version ← read manifestData "version";
         if negb (JS.strict_eq version currentVersion)
         then console_log "Service Worker: New version available";;
              emit update_notification
         else mret tt
     | None => mret tt
     end)
    (λ _, console_error "Service Worker: Failed to check for updates").

Definition doBackgroundSync (net : Network) : M unit :=
  try_catch
    (gameData ← getStoredGameData;
     (if JS.truthy gameData
      then syncGameProgress net gameData;;
           console_log "Service Worker: Game progress synced"
      else mret tt);;
     checkForUpdates)
    (λ _, console_error "Service Worker: Background sync failed").

Definition on_sync (net : Network) (tag : string) : M unit :=
  if String.eqb tag "background-sync"
  then console_log "Service Worker: Background sync triggered";;
       doBackgroundSync net
  else mret tt.

(** *** messages *)

Record MessageEvent := mkMessageEvent {
  data : JSval;
  ports : list nat
}.

(** [event.data && event.data.type]; the left operand is truthy when
    the property is read, so the read cannot throw. *)
Definition message_type (event : MessageEvent) : JSval :=
  if JS.truthy (data event)
  then default VUndefined (JS.get (data event) "type")
  else data event.

Definition on_message (event : MessageEvent) : M unit :=
  console_log "Service Worker: Message received";;
  if JS.truthy (message_type event) then
    if JS.strict_eq (message_type event) (VStr "SKIP_WAITING") then
      skipWaiting
    else if JS.strict_eq (message_type event) (VStr "GET_VERSION") then
      post_to_first_port (ports event) (VObj [("version", VStr CACHE_NAME)])
    else if JS.strict_eq (message_type event) (VStr "STORE_GAME_DATA") then
      gameData ← read (data event) "gameData";
      storeGameData gameData
    else if JS.strict_eq (message_type event) (VStr "GET_STORED_DATA") then
      stored ← getStoredGameData;
      post_to_first_port (ports event) (VObj [("data", stored)])
    else
      console_log "Service Worker: Unknown message type"
  else mret tt.

(** *** periodic cleanup *)

(** [7 * 24 * 60 * 60 * 1000] *)
Definition maxAge : Z := 7 * 24 * 60 * 60 * 1000.

(** [new Date(response.headers.get('date') || 0).getTime()]: a missing
    or empty header gives the epoch, an unparsable one [NaN]. *)
Definition date_time (response : Response) : option Z :=
  match headers_get (headers response) "date" with
  | Some text => if String.eqb text EmptyString then Some 0 else Date_parse text
  | None => Some 0
  end.

(** [now - date.getTime() > maxAge]; a comparison with [NaN] is false. *)
Definition too_old (now : Z) (response : Response) : bool :=
  match date_time response with
  | Some t => maxAge <? now - t
  | None => false
  end.

Fixpoint cleanup_loop (now : Z) (cache : string) (requests : list string) : M unit :=
  match requests with
  | [] => mret tt
  | request :: rest =>
      found ← cache_match cache request;
      match found with
      | None => throw "TypeError: Cannot read properties of undefined"
      | Some response =>
          (if too_old now response
           then cache_delete cache request;;
                console_log "Service Worker: Cleaned up old cache entry"
           else mret tt);;
          cleanup_loop now cache rest
      end
  end.

(** [now] is the value of [Date.now()] when the daily timer fires. *)
Definition cleanupOldData (now : Z) : M unit :=
  try_catch
    (cache ← caches_open CACHE_NAME;
     requests ← cache_keys cache;
     cleanup_loop now cache requests)
    (λ _, console_error "Service Worker: Cleanup failed").


(** *** The life of a worker

    The events the platform delivers; [now] is the clock reading when
    the event is handled, which only the cleanup timer consults. *)

Inductive Event :=
| Install (net : Network)
| Activate
| Fetch (net : Network) (request : Request)
| Message (event : MessageEvent)
| Sync (net : Network) (tag : string)
| Timer.

Definition handle (now : Z) (e : Event) : M unit :=
  match e with
  | Install net => on_install net
  | Activate => on_activate
  | Fetch net request => on_fetch net request;; mret tt
  | Message event => on_message event
  | Sync net tag => on_sync net tag
  | Timer => cleanupOldData now
  end.

Definition step (now : Z) (e : Event) (st : CacheStorage) : CacheStorage :=
  caches_of (run (handle now e) st).

Fixpoint steps (events : list (Z * Event)) (st : CacheStorage) : CacheStorage :=
  match events with
  | [] => st
  | (now, e) :: rest => steps rest (step now e st)
  end.

(** Events delivered to a worker that is not yet active, and to an
    active one. *)
Definition before_activation (e : Event) : bool :=
  match e with
  | Install _ | Message _ | Timer => true
  | _ => false
  end.

Definition functional (e : Event) : bool :=
  match e with
  | Fetch _ _ | Message _ | Sync _ _ | Timer => true
  | _ => false
  end.

(** The entry stored for the identity of [u] in the cache called
    [name]: what [cache.match(u)] finds there. *)
Definition entry (st : CacheStorage) (name u : string) : option Response :=
  c ← CacheStorageOps.lookup_cache name st; c !! identity u.

(** The storage a new version starts from: caches of other versions
    only, each name once. *)
Definition fresh (st : CacheStorage) : Prop :=
  NoDup (CacheStorageOps.keys st) ∧ CacheStorageOps.lookup_cache CACHE_NAME st = None.

Inductive installing : CacheStorage → Prop :=
| installing_fresh st : fresh st → installing st
| installing_step st now e :
    installing st → before_activation e = true → installing (step now e st).

(** The storages an activated worker can be serving requests from. *)
Inductive serving : CacheStorage → Prop :=
| serving_activated st now : installing st → serving (step now Activate st)
| serving_step st now e :
    serving st → functional e = true → serving (step now e st).

(** *** Origins

    The set of origins of the specification: the origin of the worker
    and the origins of the two external assets.  The origin of a URL
    stands before its path, hence before its fragment. *)
Definition same_origin (u : string) : bool :=
  JSString.startsWith (without_fragment u) (origin ++ "/").

Definition spec_origin_set (u : string) : bool :=
  same_origin u
  || JSString.startsWith (without_fragment u) "https://fonts.googleapis.com/"
  || JSString.startsWith (without_fragment u) "https://cdnjs.cloudflare.com/".

(** The platform gives the type [basic] to the response of a
    same-origin request only; the responses of the other origins have
    the type [cors] or [opaque]. *)
Definition basic_is_same_origin (net : Network) : Prop :=
  ∀ meth u r, net meth u = Some r → rtype r = basic → same_origin u = true.

Definition on_platform (e : Event) : Prop :=
  match e with
  | Fetch net _ => basic_is_same_origin net
  | _ => True
  end.

(** The storages an activated worker can be serving requests from when
    the networks of its fetch events type their responses as the platform
    does. *)
Inductive serving_on_platform : CacheStorage → Prop :=
| serving_on_platform_activated st now :
    installing st → serving_on_platform (step now Activate st)
| serving_on_platform_step st now e :
    serving_on_platform st → functional e = true → on_platform e →
    serving_on_platform (step now e st).

(** Invariants of the two phases. *)
Definition distinct_names (st : CacheStorage) : Prop := NoDup (CacheStorageOps.keys st).

(** An entry for an origin of the set with a successful status. *)
Definition admissible (u : string) (r : Response) : Prop :=
  spec_origin_set u = true ∧ ok r = true.

Definition own_entries_ok (st : CacheStorage) : Prop :=
  ∀ u r, entry st CACHE_NAME u = Some r → admissible u r.

Definition inv (st : CacheStorage) : Prop :=
  distinct_names st ∧ own_entries_ok st.

Definition only_current (st : CacheStorage) : Prop :=
  ∀ name, name ∈ CacheStorageOps.keys st → name = CACHE_NAME.

(** [m] keeps [P] true of the storage whatever it returns or throws,
    and what it returns satisfies [Q]. *)
Definition preserves {A} (P : CacheStorage → Prop) (m : M A) (Q : A → Prop) : Prop :=
  ∀ w, P (caches w) → P (caches (snd (m w))) ∧ ∀ a, fst (m w) = Ok a → Q a.

Definition notifications (tr : list Effect) : list Effect :=
  filter (λ e, is_ShowNotification e = true) tr.
Definition network_calls (tr : list Effect) : list Effect :=
  filter (λ e, is_NetFetch e = true) tr.
Definition posted (tr : list Effect) : list Effect :=
  filter (λ e, is_PostMessage e = true) tr.

(** The version field of the manifest snapshot held by the current
    cache, as [checkForUpdates] reads it. *)
Definition manifest_version (st : CacheStorage) : option JSval :=
  m ← entry st CACHE_NAME (resolve "/manifest.json");
  manifestData ← JSON_parse (body m);
  JS.get manifestData "version".

(** *** Functions used to state the properties *)

(** A property of the storage that every cache operation of the
    script maintains: opening the current cache, writing an entry that
    [G] admits, removing an entry, deleting a cache. *)
Class Stable (G : string → Response → Prop) (P : CacheStorage → Prop) : Prop := {
  stable_open : ∀ st, P st → P (CacheStorageOps.open CACHE_NAME st);
  stable_put : ∀ st u r,
    G u r → P st → P (CacheStorageOps.update CACHE_NAME (insert (identity u) r) st);
  stable_remove : ∀ st u,
    P st → P (CacheStorageOps.update CACHE_NAME (base.delete (identity u)) st);
  stable_delete : ∀ st name, P st → P (CacheStorageOps.delete name st)
}.

(** The storage left by deleting, in turn, every listed cache whose
    name is not the current one. *)
Definition prune (cacheNames : list string) (st : CacheStorage) : CacheStorage :=
  foldl (λ st name, if String.eqb name CACHE_NAME then st else CacheStorageOps.delete name st)
        st cacheNames.

(** What a pass at time [now] leaves of an entry. *)
Definition survivor (now : Z) (found : option Response) : option Response :=
  r ← found; if too_old now r then None else Some r.

(** The requests the pass iterates over. *)
Definition swept_requests (st : CacheStorage) : list string :=
  match CacheStorageOps.lookup_cache CACHE_NAME (CacheStorageOps.open CACHE_NAME st) with
  | Some c => proj1_sig <$> (map_to_list c).*1
  | None => []
  end.

(** The response [storeGameData] writes. *)
Definition game_data_response (gameData : JSval) : Response :=
  new_Response (default EmptyString (JSON_stringify gameData))
               [("Content-Type", "application/json")].

(** The entries the handler of an event can write: the request URL and
    the response of each [cache.put] and [cache.addAll] it may reach. *)
Definition writes (e : Event) (u : string) (r : Response) : Prop :=
  match e with
  | Install net =>
      u ∈ resolve <$> STATIC_ASSETS ∧ net "GET" u = Some r ∧ addable (Some r) = true
  | Fetch net request =>
      u = url request ∧ method request = "GET" ∧ intercepted_origin u = true ∧
      net "GET" u = Some r ∧ status r = 200 ∧ rtype r = basic
  | Message event =>
      u = resolve "/game-data" ∧ ∃ gameData, r = game_data_response gameData
  | _ => False
  end.

(** The two control messages of the round trip. *)
Definition STORE_GAME_DATA (gameData : JSval) (ports : list nat) : MessageEvent :=
  {| data := VObj [("type", VStr "STORE_GAME_DATA"); ("gameData", gameData)];
     ports := ports |}.

Definition GET_STORED_DATA (ports : list nat) : MessageEvent :=
  {| data := VObj [("type", VStr "GET_STORED_DATA")]; ports := ports |}.

(** What [getStoredGameData] returns on a storage, and what each part
    of a sync cycle adds to the trace. *)
Definition stored_value (st : CacheStorage) : JSval :=
  match entry st CACHE_NAME (resolve "/game-data") with
  | Some r => default VNull (JSON_parse (body r))
  | None => VNull
  end.

Definition getStoredGameData_trace (st : CacheStorage) : list Effect :=
  match entry st CACHE_NAME (resolve "/game-data") with
  | Some r =>
      match JSON_parse (body r) with
      | Some _ => []
      | None => [ConsoleError "Service Worker: Failed to get game data"]
      end
  | None => []
  end.

Definition syncGameProgress_trace (net : Network) (gameData : JSval) : list Effect :=
  ConsoleLog "Service Worker: Syncing progress" ::
  if sync_supported
  then NetFetch "POST" (resolve "/api/sync-progress") (JSON_stringify gameData) ::
       match net "POST" (resolve "/api/sync-progress") with
       | Some response =>
           if ok response
           then [ConsoleLog "Service Worker: Progress synced successfully"]
           else []
       | None => [ConsoleError "Service Worker: Failed to sync progress"]
       end
  else [].

Definition checkForUpdates_trace (st : CacheStorage) : list Effect :=
  match entry st CACHE_NAME (resolve "/manifest.json") with
  | None => []
  | Some m =>
      match manifest_version st with
      | Some version =>
          if JS.strict_eq version currentVersion then []
          else [ConsoleLog "Service Worker: New version available"; update_notification]
      | None => [ConsoleError "Service Worker: Failed to check for updates"]
      end
  end.

Definition skip_waiting_calls (tr : list Effect) : list Effect :=
  filter (λ e, is_SkipWaiting e = true) tr.

(** The promise handed to [event.waitUntil] rejected: the platform
    sees the handler fail. *)
Definition reports_failure {A} (o : Result A * World) : Prop :=
  ∃ e, result_of o = Throw e.


(** Every cache name is one of [allowed] or the current one. *)
Definition names_within (allowed : list string) (st : CacheStorage) : Prop :=
  ∀ name, name ∈ CacheStorageOps.keys st → name ∈ allowed ∨ name = CACHE_NAME.

(** ** String lemmas *)

Lemma prefix_app (p s : string) : String.prefix p (p ++ s) = true.
Proof.
  induction p as [|c p IH]; simpl.
  - now destruct s.
  - destruct (Ascii.ascii_dec c c) as [_|Hne]; [exact IH | now destruct Hne].
Qed.

Lemma startsWith_app (p s : string) : JSString.startsWith (p ++ s) p = true.
Proof. apply prefix_app. Qed.

Lemma prefix_split (p s : string) :
  String.prefix p s = true → ∃ rest, s = p ++ rest.
Proof.
  revert s. induction p as [|c p IH]; intros s H.
  - by exists s.
  - destruct s as [|c' s]; [discriminate H|]. simpl in H.
    destruct (Ascii.ascii_dec c c') as [<-|]; [|discriminate H].
    destruct (IH s H) as [rest ->]. by exists rest.
Qed.

Lemma string_append_assoc (a b c : string) : (a ++ b) ++ c = a ++ (b ++ c).
Proof.
  induction a as [|x a IH]; [reflexivity|].
  change (String x ((a ++ b) ++ c) = String x (a ++ (b ++ c))). by f_equal.
Qed.

Lemma includes_app_l (p s x : string) :
  JSString.includes p x = true → JSString.includes (p ++ s) x = true.
Proof.
  induction p as [|c p IH]; simpl.
  - rewrite orb_false_r. destruct x; [|discriminate]. intros _. by destruct s.
  - intros [H|H]%orb_true_iff; apply orb_true_iff.
    + left. destruct x as [|d x]; [reflexivity|].
      destruct (Ascii.ascii_dec d c) as [->|]; [|discriminate H].
      destruct (prefix_split _ _ H) as [rest ->].
      rewrite string_append_assoc. apply prefix_app.
    + right. by apply IH.
Qed.

(** *** The identity of a request *)

Lemma without_fragment_prefix (u : string) :
  ∃ rest, u = without_fragment u ++ rest.
Proof.
  induction u as [|c u [rest IH]]; [by exists EmptyString|]. simpl.
  destruct (Ascii.eqb c "#"); [by eexists|].
  exists rest. change (String c u = String c (without_fragment u ++ rest)).
  by rewrite <- IH.
Qed.

Lemma without_fragment_app (p s : string) :
  without_fragment p = p → without_fragment (p ++ s) = p ++ without_fragment s.
Proof.
  induction p as [|c p IH]; [reflexivity|]. intros H.
  change (without_fragment (String c (p ++ s)) = String c (p ++ without_fragment s)).
  simpl in *. destruct (Ascii.eqb c "#"); [discriminate|].
  injection H as H. by rewrite (IH H).
Qed.

Lemma identity_eq (u v : string) :
  identity u = identity v ↔ without_fragment u = without_fragment v.
Proof.
  split; [intros H; by injection H|].
  intros H. by apply (sig_eq_pi _).
Qed.

Lemma identity_proj (k : Key) : identity (proj1_sig k) = k.
Proof. apply (sig_eq_pi _). simpl. apply (proj2_sig k). Qed.

Lemma startsWith_of_identity (u p : string) :
  JSString.startsWith (without_fragment u) p = true → JSString.startsWith u p = true.
Proof.
  intros [rest H]%prefix_split. destruct (without_fragment_prefix u) as [more Hu].
  rewrite Hu, H, string_append_assoc. apply prefix_app.
Qed.

Lemma includes_of_identity (u x : string) :
  JSString.includes (without_fragment u) x = true → JSString.includes u x = true.
Proof.
  intros H. destruct (without_fragment_prefix u) as [more Hu].
  rewrite Hu. by apply includes_app_l.
Qed.

Example split_cache_name :
  JSString.split "blood-eagle-v1.0.0" "-v" = ["blood-eagle"; "1.0.0"].
Proof. reflexivity. Qed.

Example split_adjacent_separators :
  JSString.split "a-v-vb" "-v" = ["a"; EmptyString; "b"].
Proof. reflexivity. Qed.

Example includes_inside :
  JSString.includes "https://fonts.googleapis.com/css2" "fonts.googleapis.com" = true ∧
  JSString.includes "https://example.org/" "fonts.googleapis.com" = false.
Proof. split; reflexivity. Qed.

Example resolve_examples :
  resolve "/game-data" = origin ++ "/game-data" ∧
  resolve OFFLINE_URL = base ++ "index_new.html" ∧
  resolve "https://cdnjs.cloudflare.com/x.css" = "https://cdnjs.cloudflare.com/x.css".
Proof. repeat split; reflexivity. Qed.

Example headers_get_ignores_case :
  headers_get [("Content-Type", "application/json")] "content-type" = Some "application/json" ∧
  headers_get [("Content-Type", "application/json")] "date" = None.
Proof. split; reflexivity. Qed.


(** ** Cache storage lemmas *)

Section Storage.
Import CacheStorageOps.

Lemma lookup_cache_None (name : string) (st : CacheStorage) :
  lookup_cache name st = None ↔ name ∉ keys st.
Proof.
  induction st as [|[n c] st IH]; simpl.
  - split; [intros _; apply not_elem_of_nil | done].
  - destruct (String.eqb n name) eqn:E.
    + apply String.eqb_eq in E as ->. split; [done|].
      intros H. destruct H. apply list_elem_of_here.
    + apply String.eqb_neq in E. rewrite IH. unfold keys. simpl.
      rewrite not_elem_of_cons. split; [intros H; split; [congruence | exact H] | by intros [_ H]].
Qed.

Lemma lookup_cache_app (name : string) (st st' : CacheStorage) :
  lookup_cache name (st ++ st') =
  match lookup_cache name st with Some c => Some c | None => lookup_cache name st' end.
Proof.
  induction st as [|[n c] st IH]; simpl; [done|].
  by destruct (String.eqb n name).
Qed.

Lemma lookup_cache_open (name name' : string) (st : CacheStorage) :
  lookup_cache name' (open name st) =
  match lookup_cache name' st with
  | Some c => Some c
  | None => if String.eqb name name' then Some ∅ else None
  end.
Proof.
  unfold open. destruct (lookup_cache name st) eqn:E.
  - destruct (lookup_cache name' st) eqn:E'; [done|].
    destruct (String.eqb name name') eqn:N; [|done].
    apply String.eqb_eq in N as ->. congruence.
  - rewrite lookup_cache_app. simpl. done.
Qed.

Lemma lookup_cache_update (name name' : string) (f : Cache → Cache) (st : CacheStorage) :
  lookup_cache name' (update name f st) =
  if String.eqb name name' then f <$> lookup_cache name' st else lookup_cache name' st.
Proof.
  induction st as [|[n c] st IH]; simpl.
  - by destruct (String.eqb name name').
  - destruct (String.eqb n name) eqn:E1; simpl; destruct (String.eqb n name') eqn:E2;
      destruct (String.eqb name name') eqn:E3; try done;
      rewrite ?String.eqb_eq, ?String.eqb_neq in *; congruence.
Qed.

Lemma lookup_cache_delete (name name' : string) (st : CacheStorage) :
  lookup_cache name' (delete name st) =
  if String.eqb name name' then None else lookup_cache name' st.
Proof.
  unfold delete. induction st as [|[n c] st IH]; simpl.
  - by destruct (String.eqb name name').
  - rewrite filter_cons. simpl.
    destruct (String.eqb n name) eqn:E1; simpl; rewrite IH.
    + apply String.eqb_eq in E1 as ->.
      by destruct (String.eqb name name').
    + destruct (String.eqb n name') eqn:E2; destruct (String.eqb name name') eqn:E3; try done.
      rewrite ?String.eqb_eq, ?String.eqb_neq in *; congruence.
Qed.

Lemma keys_update (name : string) (f : Cache → Cache) (st : CacheStorage) :
  keys (update name f st) = keys st.
Proof.
  unfold keys, update. rewrite <- list_fmap_compose. apply list_fmap_ext.
  intros _ [n c] _. simpl. by destruct (String.eqb n name).
Qed.

Lemma keys_open (name : string) (st : CacheStorage) :
  keys (open name st) = if has name st then keys st else (keys st ++ [name])%list.
Proof.
  unfold open, has. destruct (lookup_cache name st) eqn:E.
  - rewrite bool_decide_eq_true_2; [done | by eexists].
  - rewrite bool_decide_eq_false_2; [|by intros [? ?]].
    unfold keys. by rewrite fmap_app.
Qed.

Lemma keys_delete (name : string) (st : CacheStorage) :
  keys (delete name st) = filter (λ n, n ≠ name) (keys st).
Proof.
  unfold keys, delete. induction st as [|[n c] st IH]; [done|].
  rewrite fmap_cons, !filter_cons. simpl.
  destruct (String.eqb n name) eqn:E; simpl.
  - apply String.eqb_eq in E as ->.
    case_decide as D'; [done|]. exact IH.
  - apply String.eqb_neq in E.
    case_decide as D'; [|done].
    f_equal. exact IH.
Qed.

End Storage.

Section Entries.
Import CacheStorageOps.

Lemma entry_open (name name' u : string) (st : CacheStorage) :
  entry (open name st) name' u = entry st name' u.
Proof.
  unfold entry. rewrite lookup_cache_open.
  destruct (lookup_cache name' st); [done|].
  destruct (String.eqb name name'); [|done]. simpl. apply lookup_empty.
Qed.

Lemma has_open (name : string) (st : CacheStorage) :
  is_Some (lookup_cache name (open name st)).
Proof.
  rewrite lookup_cache_open. destruct (lookup_cache name st); [by eexists|].
  rewrite String.eqb_refl. by eexists.
Qed.

Lemma entry_update_other (name name' u : string) (f : Cache → Cache) (st : CacheStorage) :
  name ≠ name' → entry (update name f st) name' u = entry st name' u.
Proof.
  intros Hne. unfold entry. rewrite lookup_cache_update.
  apply String.eqb_neq in Hne. by rewrite Hne.
Qed.

Lemma entry_put (name k u : string) (r : Response) (st : CacheStorage) :
  is_Some (lookup_cache name st) →
  entry (update name (insert (identity k) r) st) name u =
  if decide (identity k = identity u) then Some r else entry st name u.
Proof.
  intros [c Hc]. unfold entry. rewrite lookup_cache_update, String.eqb_refl, Hc. simpl.
  apply lookup_insert.
Qed.

Lemma entry_delete (name k u : string) (st : CacheStorage) :
  entry (update name (base.delete (identity k)) st) name u =
  if decide (identity k = identity u) then None else entry st name u.
Proof.
  unfold entry. rewrite lookup_cache_update, String.eqb_refl.
  destruct (lookup_cache name st) as [c|]; simpl.
  - apply lookup_delete.
  - by case_decide.
Qed.

Lemma entry_caches_delete (name name' u : string) (st : CacheStorage) :
  entry (delete name st) name' u =
  if String.eqb name name' then None else entry st name' u.
Proof.
  unfold entry. rewrite lookup_cache_delete. by destruct (String.eqb name name').
Qed.

(** With the current cache as the only one, [caches.match] reads it. *)
Lemma match_only_current (u : string) (st : CacheStorage) :
  NoDup (keys st) → only_current st → match_ u st = entry st CACHE_NAME u.
Proof.
  intros Hnd Hall. destruct st as [|[n c] st]; [done|].
  assert (n = CACHE_NAME) as -> by (apply Hall, list_elem_of_here).
  destruct st as [|[n' c'] st].
  - unfold entry. simpl. by destruct (c !! identity u).
  - exfalso. assert (n' = CACHE_NAME) as ->.
    { apply Hall. unfold keys. simpl. apply list_elem_of_further, list_elem_of_here. }
    unfold keys in Hnd. simpl in Hnd. apply NoDup_cons in Hnd as [Hn _].
    apply Hn, list_elem_of_here.
Qed.

End Entries.

(** ** Rules for [preserves] *)

Section Rules.
Context {A B : Type} (P : CacheStorage → Prop).

Lemma preserves_ret (a : A) (Q : A → Prop) : Q a → preserves P (mret a) Q.
Proof. intros Ha w Hw. split; [exact Hw|]. intros a' [= <-]. exact Ha. Qed.

Lemma preserves_throw (e : string) (Q : A → Prop) : preserves P (throw e) Q.
Proof. intros w Hw. split; [exact Hw|]. intros a' [=]. Qed.

Lemma preserves_bind (m : M A) (f : A → M B) (Q : A → Prop) (R : B → Prop) :
  preserves P m Q → (∀ a, Q a → preserves P (f a) R) → preserves P (m ≫= f) R.
Proof.
  intros Hm Hf w Hw. destruct (Hm w Hw) as [H1 H2].
  unfold mbind, M_bind. destruct (m w) as [[a|e] w']; simpl in *.
  - apply Hf; [by apply H2 | exact H1].
  - split; [exact H1 | intros ? [=]].
Qed.

Lemma preserves_try_catch (m : M A) (h : string → M A) (Q : A → Prop) :
  preserves P m Q → (∀ e, preserves P (h e) Q) → preserves P (try_catch m h) Q.
Proof.
  intros Hm Hh w Hw. destruct (Hm w Hw) as [H1 H2].
  unfold try_catch. destruct (m w) as [[a|e] w']; simpl in *.
  - split; [exact H1 | exact H2].
  - by apply Hh.
Qed.

Lemma preserves_weaken (m : M A) (Q Q' : A → Prop) :
  preserves P m Q → (∀ a, Q a → Q' a) → preserves P m Q'.
Proof. intros Hm HQ w Hw. destruct (Hm w Hw). split; auto. Qed.

End Rules.

Lemma preserves_emit (P : CacheStorage → Prop) (e : Effect) :
  preserves P (emit e) (λ _, True).
Proof. intros w Hw. by split. Qed.

Lemma preserves_get_caches (P : CacheStorage → Prop) :
  preserves P get_caches (λ _, True).
Proof. intros w Hw. by split. Qed.

Lemma preserves_modify (P : CacheStorage → Prop) (f : CacheStorage → CacheStorage) :
  (∀ st, P st → P (f st)) → preserves P (modify_caches f) (λ _, True).
Proof. intros Hf w Hw. split; [by apply Hf | done]. Qed.

Section Keeping.
Context (G : string → Response → Prop) (P : CacheStorage → Prop) `{!Stable G P}.

Local Abbreviation keeps m := (preserves P m (λ _, True)).

Lemma keeps_ret {A} (a : A) : keeps (mret a).
Proof. by apply preserves_ret. Qed.

Lemma keeps_console_log (line : string) : keeps (console_log line).
Proof. apply preserves_emit. Qed.

Lemma keeps_console_error (line : string) : keeps (console_error line).
Proof. apply preserves_emit. Qed.

Lemma keeps_skipWaiting : keeps skipWaiting.
Proof. apply preserves_emit. Qed.

Lemma keeps_clients_claim : keeps clients_claim.
Proof. apply preserves_emit. Qed.

Lemma keeps_fetch (net : Network) (meth target : string) (payload : option string) :
  keeps (fetch net meth target payload).
Proof.
  unfold fetch. eapply preserves_bind; [apply preserves_emit|]. intros _ _.
  destruct (net meth target); [apply keeps_ret | apply preserves_throw].
Qed.

Lemma preserves_fetch (net : Network) (meth target : string) (payload : option string) :
  preserves P (fetch net meth target payload) (λ r, net meth target = Some r).
Proof.
  unfold fetch. eapply preserves_bind; [apply preserves_emit|]. intros _ _.
  destruct (net meth target); [by apply preserves_ret | apply preserves_throw].
Qed.

Lemma preserves_caches_open :
  preserves P (caches_open CACHE_NAME) (λ cache, cache = CACHE_NAME).
Proof.
  unfold caches_open. eapply preserves_bind.
  - apply preserves_modify, stable_open.
  - intros _ _. by apply preserves_ret.
Qed.

Lemma keeps_caches_keys : keeps caches_keys.
Proof.
  unfold caches_keys. eapply preserves_bind; [apply preserves_get_caches|].
  intros ? _. apply keeps_ret.
Qed.

Lemma keeps_caches_match (u : string) : keeps (caches_match u).
Proof.
  unfold caches_match. eapply preserves_bind; [apply preserves_get_caches|].
  intros ? _. apply keeps_ret.
Qed.

Lemma keeps_cache_match (cache u : string) : keeps (cache_match cache u).
Proof.
  unfold cache_match. eapply preserves_bind; [apply preserves_get_caches|].
  intros ? _. apply keeps_ret.
Qed.

Lemma keeps_cache_keys (cache : string) : keeps (cache_keys cache).
Proof.
  unfold cache_keys. eapply preserves_bind; [apply preserves_get_caches|].
  intros ? _. apply keeps_ret.
Qed.

Lemma keeps_caches_delete (name : string) : keeps (caches_delete name).
Proof.
  unfold caches_delete. eapply preserves_bind; [apply preserves_get_caches|].
  intros ? _. eapply preserves_bind; [apply preserves_modify; intros; by apply stable_delete|].
  intros _ _. apply keeps_ret.
Qed.

Lemma keeps_cache_put (u : string) (r : Response) :
  G u r → keeps (cache_put CACHE_NAME u r).
Proof. intros Hu. apply preserves_modify. intros. by apply stable_put. Qed.

Lemma keeps_cache_delete (u : string) : keeps (cache_delete CACHE_NAME u).
Proof.
  unfold cache_delete. eapply preserves_bind; [apply keeps_cache_match|].
  intros ? _. eapply preserves_bind; [apply preserves_modify; intros; by apply stable_remove|].
  intros _ _. apply keeps_ret.
Qed.

Lemma keeps_post (ports : list nat) (message : JSval) :
  keeps (post_to_first_port ports message).
Proof. destruct ports; [apply preserves_throw | apply preserves_emit]. Qed.

Lemma keeps_read (v : JSval) (name : string) : keeps (read v name).
Proof. unfold read. destruct (JS.get v name); [apply keeps_ret | apply preserves_throw]. Qed.

Lemma keeps_json (r : Response) : keeps (json r).
Proof. unfold json. destruct (JSON_parse (body r)); [apply keeps_ret | apply preserves_throw]. Qed.

Lemma keeps_emit (e : Effect) : keeps (emit e).
Proof. apply preserves_emit. Qed.

End Keeping.

Create HintDb keeps.

#[local] Hint Resolve keeps_ret preserves_throw keeps_console_log keeps_console_error
  keeps_skipWaiting keeps_clients_claim keeps_emit keeps_fetch keeps_caches_keys
  keeps_caches_match keeps_cache_match keeps_cache_keys keeps_caches_delete
  keeps_cache_delete keeps_post keeps_read keeps_json : keeps.

(** One step of a preservation proof, following the shape of the
    handler: a leaf from the hint base, or a rule for sequencing,
    [try_catch] or a branch. *)
Ltac keep_step :=
  first
    [ solve [eauto 3 with keeps]
    | eapply preserves_bind; [eapply preserves_caches_open; eassumption | intros ? ->]
    | eapply preserves_bind with (Q := λ _, True); [|intros ? _]
    | apply preserves_try_catch; [|intros ?]
    | match goal with
      | |- preserves _ (if ?b then _ else _) _ => destruct b eqn:?
      | |- preserves _ (match ?x with _ => _ end) _ => destruct x eqn:?
      end ].

Ltac keep := repeat keep_step.

Section Handlers.
Context (G : string → Response → Prop) (P : CacheStorage → Prop) `{!Stable G P}.

Local Abbreviation keeps m := (preserves P m (λ _, True)).

Lemma keeps_put_all (entries : list (string * Response)) :
  Forall (λ e, G (fst e) (snd e)) entries →
  keeps (put_all CACHE_NAME entries).
Proof.
  induction 1 as [|[u r] entries Hu _ IH]; simpl; [by eapply keeps_ret|].
  eapply preserves_bind; [by eapply keeps_cache_put|]. intros _ _. exact IH.
Qed.

Lemma accepted_entries (net : Network) (targets : list string) entries :
  accepted (request_all net targets) = Some entries →
  Forall (λ e, fst e ∈ targets ∧ net "GET" (fst e) = Some (snd e) ∧
               addable (Some (snd e)) = true) entries.
Proof.
  unfold request_all.
  revert entries. induction targets as [|u targets IH]; simpl; intros entries H.
  - injection H as <-. constructor.
  - destruct (addable (net "GET" u)) eqn:Ha; [|done].
    destruct (net "GET" u) as [r|] eqn:Hn; [|done].
    destruct (accepted _) as [rs|] eqn:Hrs; [|done].
    injection H as <-. constructor.
    + simpl. split; [apply list_elem_of_here | by split].
    + eapply Forall_impl; [by apply IH|].
      intros [u' r'] [? ?]. split; [by apply list_elem_of_further | done].
Qed.

Lemma keeps_cache_addAll (net : Network) (targets : list string) :
  (∀ u r, u ∈ targets → net "GET" u = Some r → addable (Some r) = true → G u r) →
  keeps (cache_addAll net CACHE_NAME targets).
Proof.
  intros Htargets. unfold cache_addAll.
  eapply preserves_bind; [apply preserves_emit|]. intros _ _.
  destruct (accepted _) as [entries|] eqn:Hacc; [|apply preserves_throw].
  apply keeps_put_all. apply accepted_entries in Hacc.
  eapply Forall_impl; [exact Hacc|]. intros [u r] (Hu & Hnet & Hr).
  by apply Htargets.
Qed.

Lemma keeps_on_install (net : Network) :
  (∀ u r, writes (Install net) u r → G u r) → keeps (on_install net).
Proof.
  intros Hwrites.
  assert (Hadd : keeps (cache_addAll net CACHE_NAME (resolve <$> STATIC_ASSETS))).
  { apply keeps_cache_addAll. intros u r Hu Hnet Hr. by apply Hwrites. }
  unfold on_install. keep.
Qed.

Lemma keeps_delete_old_caches (cacheNames : list string) :
  keeps (delete_old_caches cacheNames).
Proof. induction cacheNames as [|n l IH]; simpl; keep. Qed.

Lemma keeps_on_activate : keeps on_activate.
Proof.
  pose proof keeps_delete_old_caches as Hloop. unfold on_activate. keep.
Qed.

Lemma keeps_on_fetch (net : Network) (request : Request) :
  (∀ u r, writes (Fetch net request) u r → G u r) → keeps (on_fetch net request).
Proof.
  intros Hwrites. unfold on_fetch.
  destruct (negb (String.eqb (method request) "GET")) eqn:Hget; [by eapply keeps_ret|].
  destruct (negb (intercepted_origin (url request))) eqn:Horigin; [by eapply keeps_ret|].
  apply negb_false_iff in Hget, Horigin. apply String.eqb_eq in Hget.
  eapply preserves_bind with (Q := λ _, True); [|intros ? _; keep].
  apply preserves_try_catch; [|intros ?; keep].
  eapply preserves_bind with (Q := λ _, True); [keep|]. intros [cached|] _; [keep|].
  eapply preserves_bind; [eapply preserves_fetch; eassumption|]. intros resp Hnet.
  destruct (negb (status resp =? 200) || negb (ResponseType_eqb (rtype resp) basic))
    eqn:Hcacheable; [keep|].
  eapply preserves_bind; [eapply preserves_caches_open; eassumption | intros ? ->].
  eapply preserves_bind with (Q := λ _, True); [|intros ? _; keep].
  eapply keeps_cache_put; [eassumption|]. apply Hwrites.
  apply orb_false_iff in Hcacheable as [Hstatus Htype].
  apply negb_false_iff in Hstatus, Htype. apply Z.eqb_eq in Hstatus.
  rewrite Hget in Hnet.
  repeat split; try done. by destruct (rtype resp).
Qed.

Lemma keeps_getStoredGameData : keeps getStoredGameData.
Proof. unfold getStoredGameData. keep. Qed.

Lemma keeps_storeGameData (gameData : JSval) :
  G (resolve "/game-data") (game_data_response gameData) →
  keeps (storeGameData gameData).
Proof.
  intros Hwrites.
  assert (Hput : keeps (cache_put CACHE_NAME (resolve "/game-data")
                                  (game_data_response gameData)))
    by (by eapply keeps_cache_put).
  unfold storeGameData. fold (game_data_response gameData). keep.
Qed.

Lemma keeps_syncGameProgress (net : Network) (gameData : JSval) :
  keeps (syncGameProgress net gameData).
Proof. unfold syncGameProgress. keep. Qed.

Lemma keeps_checkForUpdates : keeps checkForUpdates.
Proof. unfold checkForUpdates. keep. Qed.

Lemma keeps_doBackgroundSync (net : Network) : keeps (doBackgroundSync net).
Proof.
  pose proof keeps_getStoredGameData. pose proof keeps_syncGameProgress.
  pose proof keeps_checkForUpdates. unfold doBackgroundSync. keep.
Qed.

Lemma keeps_on_sync (net : Network) (tag : string) : keeps (on_sync net tag).
Proof. pose proof keeps_doBackgroundSync. unfold on_sync. keep. Qed.

Lemma keeps_on_message (event : MessageEvent) :
  (∀ u r, writes (Message event) u r → G u r) → keeps (on_message event).
Proof.
  intros Hwrites.
  pose proof keeps_getStoredGameData.
  assert (Hstore : ∀ gameData, keeps (storeGameData gameData)).
  { intros gameData. apply keeps_storeGameData, Hwrites. split; [done | by eexists]. }
  unfold on_message. keep.
Qed.

Lemma keeps_cleanup_loop (now : Z) (requests : list string) :
  keeps (cleanup_loop now CACHE_NAME requests).
Proof. induction requests as [|k l IH]; simpl; keep. Qed.

Lemma keeps_cleanupOldData (now : Z) : keeps (cleanupOldData now).
Proof. pose proof keeps_cleanup_loop. unfold cleanupOldData. keep. Qed.

(** Every handler maintains a stable property of the storage that
    admits what the event writes. *)
Lemma keeps_handle (now : Z) (e : Event) :
  (∀ u r, writes e u r → G u r) → keeps (handle now e).
Proof.
  intros Hwrites.
  pose proof keeps_on_activate.
  pose proof keeps_on_sync. pose proof keeps_cleanupOldData.
  destruct e; simpl.
  - by apply keeps_on_install.
  - keep.
  - pose proof (keeps_on_fetch net request Hwrites). keep.
  - by apply keeps_on_message.
  - keep.
  - keep.
Qed.

Lemma step_keeps (now : Z) (e : Event) (st : CacheStorage) :
  (∀ u r, writes e u r → G u r) → P st → P (step now e st).
Proof. intros Hwrites H. unfold step, caches_of, run. by apply keeps_handle. Qed.

End Handlers.

(** ** The invariants are stable *)

Section Invariants.
Import CacheStorageOps.

Lemma NoDup_keys_open (name : string) (st : CacheStorage) :
  NoDup (keys st) → NoDup (keys (open name st)).
Proof.
  intros Hnd. rewrite keys_open. unfold has.
  destruct (lookup_cache name st) eqn:E.
  - by rewrite bool_decide_eq_true_2; [|eexists].
  - rewrite bool_decide_eq_false_2; [|by intros [? ?]].
    apply NoDup_app. split; [exact Hnd|]. split; [|apply NoDup_singleton].
    intros x Hx ->%list_elem_of_singleton. by apply lookup_cache_None in E.
Qed.

Lemma entry_update_insert_inv (name k u : string) (r r' : Response) (st : CacheStorage) :
  entry (update name (insert (identity k) r) st) name u = Some r' →
  (identity k = identity u ∧ r' = r) ∨ entry st name u = Some r'.
Proof.
  unfold entry. rewrite lookup_cache_update, String.eqb_refl.
  destruct (lookup_cache name st) as [c|]; simpl; [|done].
  rewrite lookup_insert. case_decide; [|by right]. intros [= <-]. by left.
Qed.

#[export] Instance distinct_names_stable (G : string → Response → Prop) :
  Stable G distinct_names.
Proof.
  unfold distinct_names. split.
  - intros st Hnd. by apply NoDup_keys_open.
  - intros st u r _ Hnd. by rewrite keys_update.
  - intros st u Hnd. by rewrite keys_update.
  - intros st name Hnd. rewrite keys_delete. by apply NoDup_filter.
Qed.

#[export] Instance only_current_stable (G : string → Response → Prop) :
  Stable G only_current.
Proof.
  split.
  - intros st H name. rewrite keys_open.
    destruct (has CACHE_NAME st); [apply H|].
    intros [?| ->%list_elem_of_singleton]%elem_of_app; [by apply H | done].
  - intros st u r _ H name. rewrite keys_update. apply H.
  - intros st u H name. rewrite keys_update. apply H.
  - intros st n H name. rewrite keys_delete.
    intros [_ ?]%list_elem_of_filter. by apply H.
Qed.

(** The origin of a URL is read off its identity. *)
Lemma spec_origin_set_identity (u u' : string) :
  identity u = identity u' → spec_origin_set u = spec_origin_set u'.
Proof.
  intros H%identity_eq. unfold spec_origin_set, same_origin. by rewrite H.
Qed.

#[export] Instance own_entries_ok_stable : Stable admissible own_entries_ok.
Proof.
  split.
  - intros st Hok u r. rewrite entry_open. apply Hok.
  - intros st u r [Hu Hr] Hok u' r' [[Hk ->]|H]%entry_update_insert_inv; [|by apply Hok].
    split; [|exact Hr]. by rewrite <- (spec_origin_set_identity u u' Hk).
  - intros st u Hok u' r'. rewrite entry_delete. case_decide; [done | apply Hok].
  - intros st name Hok u r. rewrite entry_caches_delete.
    destruct (String.eqb name CACHE_NAME); [done | apply Hok].
Qed.

(** An origin has no fragment sign, so the paths of the worker's own
    origin are same-origin. *)
Lemma same_origin_path (path : string) :
  without_fragment origin = origin → same_origin (origin ++ String "/" path) = true.
Proof.
  intros Horigin. unfold same_origin. rewrite (without_fragment_app _ _ Horigin).
  change (without_fragment (String "/" path)) with ("/" ++ without_fragment path).
  rewrite <- string_append_assoc. apply startsWith_app.
Qed.

Lemma spec_origin_set_intercepted (u : string) :
  spec_origin_set u = true → intercepted_origin u = true.
Proof.
  unfold spec_origin_set, same_origin, intercepted_origin.
  intros [[H|H]%orb_true_iff|H]%orb_true_iff.
  - apply orb_true_iff. left. apply orb_true_iff. left.
    apply startsWith_of_identity.
    destruct (prefix_split _ _ H) as [rest ->].
    rewrite string_append_assoc. apply startsWith_app.
  - apply orb_true_iff. left. apply orb_true_iff. right.
    apply includes_of_identity.
    destruct (prefix_split _ _ H) as [rest ->].
    by apply includes_app_l.
  - apply orb_true_iff. right.
    apply includes_of_identity.
    destruct (prefix_split _ _ H) as [rest ->].
    by apply includes_app_l.
Qed.

Lemma static_assets_in_origin_set (u : string) :
  without_fragment origin = origin →
  u ∈ resolve <$> STATIC_ASSETS → spec_origin_set u = true.
Proof.
  intros Horigin. unfold STATIC_ASSETS. rewrite !fmap_cons, fmap_nil.
  rewrite !elem_of_cons, elem_of_nil.
  unfold spec_origin_set.
  intros [->|[->|[->|[->|[->|[->|[->|[]]]]]]]];
    first [ apply orb_true_iff; left; apply orb_true_iff; left;
            by apply same_origin_path
          | apply orb_true_iff; left; apply orb_true_iff; right; vm_compute; reflexivity
          | apply orb_true_iff; right; vm_compute; reflexivity ].
Qed.

(** What an event writes is admissible on the platform. *)
Lemma writes_admissible (e : Event) (u : string) (r : Response) :
  without_fragment origin = origin → on_platform e → writes e u r → admissible u r.
Proof.
  intros Horigin Hplatform. destruct e as [net| |net request|event|net tag|]; simpl; try done.
  - intros (Hu & Hnet & Hr). split; [by apply static_assets_in_origin_set|].
    simpl in Hr. by apply andb_true_iff in Hr as [? _].
  - intros (-> & Hget & Hint & Hnet & Hstatus & Htype). split.
    + unfold spec_origin_set. apply orb_true_iff. left. apply orb_true_iff. left.
      by apply (Hplatform "GET" _ r).
    + unfold ok. by rewrite Hstatus.
  - intros (-> & gameData & ->). split; [|reflexivity].
    unfold spec_origin_set. apply orb_true_iff. left. apply orb_true_iff. left.
    by apply same_origin_path.
Qed.

Lemma fresh_inv (st : CacheStorage) : fresh st → inv st.
Proof.
  intros [Hnd Hnone]. split; [exact Hnd|].
  intros u r. unfold entry. by rewrite Hnone.
Qed.

Lemma installing_distinct_names (st : CacheStorage) : installing st → distinct_names st.
Proof.
  induction 1 as [st [Hfresh _] | st now e _ IH _]; [exact Hfresh|].
  by eapply (step_keeps (λ _ _, True)); [apply distinct_names_stable| |].
Qed.

Lemma installing_inv (st : CacheStorage) :
  without_fragment origin = origin → installing st → inv st.
Proof.
  intros Horigin Hinst. split; [by apply installing_distinct_names|].
  induction Hinst as [st Hfresh | st now e _ IH He].
  - by apply fresh_inv.
  - eapply (step_keeps admissible); [apply own_entries_ok_stable| |exact IH].
    intros u r. apply writes_admissible; [exact Horigin|].
    by destruct e.
Qed.

End Invariants.

(** ** Activation *)

Section Activation.
Import CacheStorageOps.

Lemma delete_old_caches_prune (cacheNames : list string) (w : World) :
  fst (delete_old_caches cacheNames w) = Ok tt ∧
  caches (snd (delete_old_caches cacheNames w)) = prune cacheNames (caches w).
Proof.
  revert w. induction cacheNames as [|n l IH]; intros w; [done|].
  simpl. unfold mbind, M_bind at 1.
  destruct (String.eqb n CACHE_NAME) eqn:E; simpl; apply IH.
Qed.

Lemma lookup_cache_prune (name : string) (cacheNames : list string) (st : CacheStorage) :
  lookup_cache name (prune cacheNames st) =
  if bool_decide (name ∈ cacheNames) && negb (String.eqb name CACHE_NAME)
  then None else lookup_cache name st.
Proof.
  revert st. induction cacheNames as [|n l IH]; intros st; [done|].
  simpl. rewrite IH. destruct (String.eqb name CACHE_NAME) eqn:Ec.
  - rewrite !andb_false_r. apply String.eqb_eq in Ec as ->.
    destruct (String.eqb n CACHE_NAME) eqn:En; [done|].
    rewrite lookup_cache_delete. by rewrite En.
  - rewrite !andb_true_r. destruct (bool_decide (name ∈ l)) eqn:El.
    + rewrite bool_decide_eq_true_2; [done|].
      apply bool_decide_eq_true in El. by apply list_elem_of_further.
    + apply bool_decide_eq_false in El.
      destruct (String.eqb n name) eqn:Enn.
      * apply String.eqb_eq in Enn as ->. rewrite Ec, lookup_cache_delete, String.eqb_refl.
        by rewrite bool_decide_eq_true_2; [|apply list_elem_of_here].
      * apply String.eqb_neq in Enn.
        rewrite bool_decide_eq_false_2; [|by intros [?|?]%elem_of_cons].
        destruct (String.eqb n CACHE_NAME); [done|].
        rewrite lookup_cache_delete. apply String.eqb_neq in Enn. by rewrite Enn.
Qed.

Lemma on_activate_caches (st : CacheStorage) :
  result_of (run on_activate st) = Ok tt ∧
  caches_of (run on_activate st) = prune (keys st) st.
Proof.
  unfold result_of, caches_of, run, on_activate. simpl.
  unfold mbind, M_bind. simpl.
  match goal with |- context [delete_old_caches ?l ?w] =>
    destruct (delete_old_caches_prune l w) as [H1 H2];
    destruct (delete_old_caches l w) as [[[]|e] w'] end; simpl in *; [done|done].
Qed.

End Activation.

Section Serving.
Import CacheStorageOps.

Lemma activated_only_current (st : CacheStorage) :
  only_current (caches_of (run on_activate st)).
Proof.
  destruct (on_activate_caches st) as [_ ->]. intros name Hin.
  destruct (String.eqb name CACHE_NAME) eqn:E; [by apply String.eqb_eq|].
  exfalso. revert Hin. apply lookup_cache_None.
  rewrite lookup_cache_prune, E, andb_true_r.
  destruct (bool_decide (name ∈ keys st)) eqn:Hk; [done|].
  apply bool_decide_eq_false in Hk. by apply lookup_cache_None.
Qed.

Lemma serving_inv (st : CacheStorage) : serving st → distinct_names st ∧ only_current st.
Proof.
  induction 1 as [st now Hinst | st now e _ [IH1 IH2] _].
  - split.
    + eapply (step_keeps (λ _ _, True));
        [apply distinct_names_stable | done | by apply installing_distinct_names].
    + apply activated_only_current.
  - split; eapply (step_keeps (λ _ _, True));
      first [apply distinct_names_stable | apply only_current_stable | done].
Qed.

Lemma serving_on_platform_serving (st : CacheStorage) :
  serving_on_platform st → serving st.
Proof.
  induction 1 as [st now Hinst | st now e _ IH Hf _].
  - by apply serving_activated.
  - by apply serving_step.
Qed.

Lemma serving_on_platform_inv (st : CacheStorage) :
  without_fragment origin = origin →
  serving_on_platform st → inv st ∧ only_current st.
Proof.
  intros Horigin Hs. split; [split|].
  - by apply serving_inv, serving_on_platform_serving.
  - induction Hs as [st now Hinst | st now e _ IH _ He].
    + eapply (step_keeps admissible); [apply own_entries_ok_stable | done |].
      by apply installing_inv.
    + eapply (step_keeps admissible); [apply own_entries_ok_stable | | exact IH].
      intros u r. by apply writes_admissible.
  - by apply serving_inv, serving_on_platform_serving.
Qed.

End Serving.

(** ** The claims *)

(** C3. After the activate handler has run, every cache whose name
    differs from the current build's [CACHE_NAME] is gone, the names
    left in the storage are all [CACHE_NAME], and the current cache is
    as it was; the promise handed to [waitUntil] fulfils. *)
Theorem activate_deletes_other_versions (st : CacheStorage) :
  let after := caches_of (run on_activate st) in
  result_of (run on_activate st) = Ok tt ∧
  (∀ name, name ≠ CACHE_NAME → CacheStorageOps.lookup_cache name after = None) ∧
  (∀ name, name ∈ CacheStorageOps.keys after → name = CACHE_NAME) ∧
  CacheStorageOps.lookup_cache CACHE_NAME after = CacheStorageOps.lookup_cache CACHE_NAME st.
Proof.
  intros after. destruct (on_activate_caches st) as [Hres Hc].
  split; [exact Hres|]. split; [|split].
  - intros name Hne. unfold after. rewrite Hc, lookup_cache_prune.
    apply String.eqb_neq in Hne. rewrite Hne, andb_true_r.
    destruct (bool_decide (name ∈ CacheStorageOps.keys st)) eqn:Hk; [done|].
    apply bool_decide_eq_false in Hk. by apply lookup_cache_None.
  - apply activated_only_current.
  - unfold after. rewrite Hc, lookup_cache_prune, String.eqb_refl.
    by rewrite andb_false_r.
Qed.

(** The fetch handler, case by case. *)
Lemma on_fetch_run (st : CacheStorage) (net : Network) (request : Request) :
  run (on_fetch net request) st =
  if negb (String.eqb (method request) "GET") then (Ok NotIntercepted, mkWorld st [])
  else if negb (intercepted_origin (url request)) then (Ok NotIntercepted, mkWorld st [])
  else
    match CacheStorageOps.match_ (url request) st with
    | Some cached => (Ok (RespondWith (Some cached)), mkWorld st [])
    | None =>
        let tr := [NetFetch (method request) (url request) None] in
        match net (method request) (url request) with
        | Some resp =>
            if negb (status resp =? 200) || negb (ResponseType_eqb (rtype resp) basic)
            then (Ok (RespondWith (Some resp)), mkWorld st tr)
            else (Ok (RespondWith (Some resp)),
                  mkWorld (CacheStorageOps.update CACHE_NAME
                             (insert (identity (url request)) resp)
                             (CacheStorageOps.open CACHE_NAME st)) tr)
        | None =>
            (Ok (RespondWith (if String.eqb (mode request) "navigate"
                              then CacheStorageOps.match_ (resolve OFFLINE_URL) st
                              else None)),
             mkWorld st tr)
        end
    end.
Proof.
  unfold run, on_fetch.
  destruct (negb (String.eqb (method request) "GET")); [done|].
  destruct (negb (intercepted_origin (url request))); [done|].
  unfold mbind, M_bind, try_catch, caches_match, fetch. simpl.
  unfold mbind, M_bind. simpl.
  destruct (CacheStorageOps.match_ (url request) st); [done|]. simpl.
  destruct (net (method request) (url request)) as [resp|]; simpl.
  - by destruct (negb (status resp =? 200) || negb (ResponseType_eqb (rtype resp) basic)).
  - by destruct (String.eqb (mode request) "navigate").
Qed.

(** C1. In every storage an activated worker can be serving from, a
    GET request whose identity, its URL without the fragment, has an
    entry in the current cache is answered with that stored response;
    the handler makes no network request (its trace is empty) and leaves
    the storage as it is.  The platform is one whose origin has no
    fragment sign and whose fetched responses have the type [basic] for
    same-origin requests only. *)
Theorem cache_hit_served_without_network
    (st : CacheStorage) (net : Network) (request : Request) (r : Response) :
  without_fragment origin = origin →
  serving_on_platform st →
  method request = "GET" →
  entry st CACHE_NAME (url request) = Some r →
  let o := run (on_fetch net request) st in
  result_of o = Ok (RespondWith (Some r)) ∧
  delivered_by net request o = Some r ∧
  trace_of o = [] ∧
  caches_of o = st.
Proof.
  intros Horigin Hs Hget Hentry o. subst o.
  destruct (serving_on_platform_inv st Horigin Hs) as [[Hnd Hok] Hcur].
  destruct (Hok _ _ Hentry) as [Hset _].
  pose proof (spec_origin_set_intercepted _ Hset) as Hint.
  pose proof (match_only_current (url request) st Hnd Hcur) as Hmatch.
  rewrite Hentry in Hmatch.
  rewrite on_fetch_run, Hget, Hint, Hmatch. done.
Qed.

Lemma ResponseType_eqb_eq (a b : ResponseType) : ResponseType_eqb a b = true ↔ a = b.
Proof. destruct a, b; simpl; split; congruence. Qed.

(** Throughout the life of a worker every entry of the current cache
    is for a URL of the origin set and holds a response with an ok
    status. *)
Lemma worker_entries_ok (st : CacheStorage) (u : string) (r : Response) :
  without_fragment origin = origin →
  installing st ∨ serving_on_platform st →
  entry st CACHE_NAME u = Some r →
  spec_origin_set u = true ∧ ok r = true.
Proof.
  intros Horigin [Hinst | Hs].
  - destruct (installing_inv st Horigin Hinst) as [_ Hok]. apply Hok.
  - destruct (serving_on_platform_inv st Horigin Hs) as [[_ Hok] _]. apply Hok.
Qed.

(** C8. The requests of the origin set, same-origin or of one of the
    two allow-listed origins, pass the origin test of the handler.  A
    GET request that passes the test, misses the caches and is answered
    by the network with status 200 and type [basic] is answered with that
    response, and a copy of it is stored in the current cache under the
    identity of the request, after exactly one network request.
    Conversely, whatever the request and the network, an entry found
    after the handler ran that was not there before is the entry for the
    identity of the request in the current cache, for a GET request that
    passes the test, and holds the network's response, of status 200 and
    type [basic]; its origin is in the set when the network gives the
    type [basic] to same-origin responses only, as the platform does.
    And whichever handler wrote it, on such a platform an entry of the
    current cache of a worker is for an origin of the set and holds a
    response with an ok status. *)
Theorem fetch_miss_populates_cache (st : CacheStorage) (net : Network) (request : Request) :
  let o := run (on_fetch net request) st in
  (spec_origin_set (url request) = true → intercepted_origin (url request) = true) ∧
  (∀ resp,
     method request = "GET" →
     intercepted_origin (url request) = true →
     CacheStorageOps.match_ (url request) st = None →
     net "GET" (url request) = Some resp →
     status resp = 200 →
     rtype resp = basic →
     result_of o = Ok (RespondWith (Some resp)) ∧
     delivered_by net request o = Some resp ∧
     entry (caches_of o) CACHE_NAME (url request) = Some resp ∧
     trace_of o = [NetFetch "GET" (url request) None]) ∧
  (∀ name u r,
     entry (caches_of o) name u = Some r →
     entry st name u = Some r ∨
     (name = CACHE_NAME ∧ identity u = identity (url request) ∧
      method request = "GET" ∧ intercepted_origin (url request) = true ∧
      net "GET" (url request) = Some r ∧ status r = 200 ∧ rtype r = basic ∧
      (basic_is_same_origin net → spec_origin_set u = true))) ∧
  (without_fragment origin = origin →
   ∀ st' u r,
     installing st' ∨ serving_on_platform st' →
     entry st' CACHE_NAME u = Some r →
     spec_origin_set u = true ∧ ok r = true).
Proof.
  intros o. subst o. rewrite on_fetch_run.
  split; [apply spec_origin_set_intercepted|]. split; [|split].
  - intros resp Hget Horigin Hmiss Hnet Hstatus Htype.
    rewrite Hget, Horigin, Hmiss. simpl. rewrite Hnet, Hstatus, Htype. simpl.
    unfold delivered_by, result_of, caches_of, trace_of. simpl.
    repeat split; try done.
    rewrite entry_put; [by rewrite decide_True | apply has_open].
  - intros name u r.
    destruct (negb (String.eqb (method request) "GET")) eqn:Hget; [by left|].
    destruct (negb (intercepted_origin (url request))) eqn:Horigin; [by left|].
    destruct (CacheStorageOps.match_ (url request) st); [by left|].
    apply negb_false_iff in Hget, Horigin. apply String.eqb_eq in Hget.
    simpl. rewrite Hget.
    destruct (net "GET" (url request)) as [resp|] eqn:Hnet; [|by left].
    destruct (negb (status resp =? 200) || negb (ResponseType_eqb (rtype resp) basic))
      eqn:Hcacheable; [by left|].
    apply orb_false_iff in Hcacheable as [Hstatus Htype].
    apply negb_false_iff in Hstatus, Htype.
    apply Z.eqb_eq in Hstatus. apply ResponseType_eqb_eq in Htype.
    unfold caches_of. simpl. intros Hentry.
    destruct (decide (name = CACHE_NAME)) as [->|Hne].
    + apply entry_update_insert_inv in Hentry as [[Hk ->]|Hentry].
      * right. repeat split; try done.
        intros Hplatform. rewrite <- (spec_origin_set_identity _ _ Hk).
        unfold spec_origin_set. apply orb_true_iff. left. apply orb_true_iff. left.
        by apply (Hplatform "GET" _ resp).
      * left. by rewrite entry_open in Hentry.
    + left. rewrite entry_update_other, entry_open in Hentry; done.
  - intros Horigin st' u r. by apply worker_entries_ok.
Qed.

(** C6, amended. For a GET request that misses the caches and whose
    network fetch fails: a navigation to an intercepted origin is
    answered with whatever the caches hold under the offline URL, hence
    with the offline document when it is cached and with a failed
    request when it is not; a request that is not a navigation fails
    for the page. *)
Theorem offline_miss_falls_back_to_cached_document
    (st : CacheStorage) (net : Network) (request : Request) :
  method request = "GET" →
  CacheStorageOps.match_ (url request) st = None →
  net "GET" (url request) = None →
  let o := run (on_fetch net request) st in
  (mode request = "navigate" →
   intercepted_origin (url request) = true →
   result_of o = Ok (RespondWith (CacheStorageOps.match_ (resolve OFFLINE_URL) st)) ∧
   delivered_by net request o = CacheStorageOps.match_ (resolve OFFLINE_URL) st) ∧
  (mode request ≠ "navigate" → delivered_by net request o = None).
Proof.
  intros Hget Hmiss Hnet o. subst o. rewrite on_fetch_run, Hget. simpl.
  split.
  - intros Hmode Horigin. rewrite Horigin, Hmiss. simpl. rewrite Hnet, Hmode. done.
  - intros Hmode. apply String.eqb_neq in Hmode.
    destruct (negb (intercepted_origin (url request))).
    + unfold delivered_by. simpl. by rewrite Hget.
    + rewrite Hmiss. simpl. rewrite Hnet, Hmode. done.
Qed.

(** ** The cleanup pass *)

Section Cleanup.
Import CacheStorageOps.

Lemma cache_match_run (cache u : string) (w : World) :
  cache_match cache u w = (Ok (entry (caches w) cache u), w).
Proof. reflexivity. Qed.

Lemma entry_identity (st : CacheStorage) (name u u' : string) :
  identity u = identity u' → entry st name u = entry st name u'.
Proof. intros H. unfold entry. by rewrite H. Qed.

Lemma fmap_identity_proj (ks : list Key) : identity <$> (proj1_sig <$> ks) = ks.
Proof.
  induction ks as [|k ks IH]; [done|].
  by rewrite !fmap_cons, identity_proj, IH.
Qed.

Lemma cleanup_loop_cons (now : Z) (k : string) (l : list string) (w : World) (r : Response) :
  entry (caches w) CACHE_NAME k = Some r →
  cleanup_loop now CACHE_NAME (k :: l) w =
  cleanup_loop now CACHE_NAME l
    (if too_old now r
     then {| caches := update CACHE_NAME (base.delete (identity k)) (caches w);
             trace := trace w ++ [ConsoleLog "Service Worker: Cleaned up old cache entry"] |}
     else w).
Proof.
  intros Hr. cbn [cleanup_loop]. unfold mbind at 1. unfold M_bind at 1.
  rewrite cache_match_run, Hr.
  by destruct (too_old now r).
Qed.

Lemma cleanup_loop_spec (now : Z) (requests : list string) (w : World) :
  NoDup (identity <$> requests) →
  (∀ k, k ∈ requests → is_Some (entry (caches w) CACHE_NAME k)) →
  fst (cleanup_loop now CACHE_NAME requests w) = Ok tt ∧
  ∀ name u,
    entry (caches (snd (cleanup_loop now CACHE_NAME requests w))) name u =
    if bool_decide (name = CACHE_NAME ∧ identity u ∈ identity <$> requests)
    then survivor now (entry (caches w) CACHE_NAME u)
    else entry (caches w) name u.
Proof.
  revert w. induction requests as [|k l IH]; intros w Hnd Hall.
  - split; [done|]. intros name u. simpl.
    rewrite bool_decide_eq_false_2; [done|]. intros [_ H]. by apply elem_of_nil in H.
  - rewrite fmap_cons in Hnd. apply NoDup_cons in Hnd as [Hk Hnd].
    destruct (Hall k (list_elem_of_here _ _)) as [r Hr].
    rewrite (cleanup_loop_cons now k l w r Hr).
    set (w1 := if too_old now r then _ else w).
    assert (Hw1 : ∀ name u, entry (caches w1) name u =
              if bool_decide (name = CACHE_NAME ∧ identity u = identity k)
              then survivor now (entry (caches w) CACHE_NAME u)
              else entry (caches w) name u).
    { intros name u. subst w1. case_bool_decide as Hd.
      - destruct Hd as [-> Hu]. rewrite (entry_identity (caches w) _ u k Hu), Hr. simpl.
        destruct (too_old now r); simpl.
        + rewrite entry_delete. by rewrite decide_True.
        + by rewrite (entry_identity (caches w) _ u k Hu).
      - destruct (too_old now r); simpl; [|done].
        destruct (decide (name = CACHE_NAME)) as [->|Hne].
        + rewrite entry_delete. rewrite decide_False; [done|]. intros Heq. by apply Hd.
        + by rewrite entry_update_other. }
    destruct (IH w1 Hnd) as [Hres Hent].
    { intros k' Hk'. rewrite Hw1. rewrite bool_decide_eq_false_2.
      - apply Hall. by apply list_elem_of_further.
      - intros [_ Heq]. apply Hk. rewrite <- Heq. by apply list_elem_of_fmap_2. }
    split; [exact Hres|]. intros name u. rewrite Hent, !Hw1. rewrite fmap_cons.
    clear Hent Hw1 IH Hall Hres.
    destruct (decide (name = CACHE_NAME)) as [->|Hname].
    + destruct (decide (identity u = identity k)) as [Hu|Hu].
      * rewrite (bool_decide_eq_false_2
                   (CACHE_NAME = CACHE_NAME ∧ identity u ∈ identity <$> l))
          by (intros [_ H]; apply Hk; by rewrite <- Hu).
        rewrite (bool_decide_eq_true_2 (CACHE_NAME = CACHE_NAME ∧ identity u = identity k))
          by done.
        rewrite (bool_decide_eq_true_2
                   (CACHE_NAME = CACHE_NAME ∧ identity u ∈ identity k :: (identity <$> l)));
          [done|].
        split; [done | rewrite Hu; apply list_elem_of_here].
      * rewrite (bool_decide_eq_false_2 (CACHE_NAME = CACHE_NAME ∧ identity u = identity k))
          by (by intros [_ ?]).
        destruct (decide (identity u ∈ identity <$> l)) as [Hin|Hnin].
        -- rewrite (bool_decide_eq_true_2
                      (CACHE_NAME = CACHE_NAME ∧ identity u ∈ identity <$> l)) by done.
           rewrite (bool_decide_eq_true_2
                      (CACHE_NAME = CACHE_NAME ∧ identity u ∈ identity k :: (identity <$> l)));
             [done|].
           split; [done | by apply list_elem_of_further].
        -- rewrite (bool_decide_eq_false_2
                      (CACHE_NAME = CACHE_NAME ∧ identity u ∈ identity <$> l))
             by (by intros [_ ?]).
           rewrite (bool_decide_eq_false_2
                      (CACHE_NAME = CACHE_NAME ∧ identity u ∈ identity k :: (identity <$> l)));
             [done|].
           by intros [_ [?|?]%elem_of_cons].
    + rewrite (bool_decide_eq_false_2 (name = CACHE_NAME ∧ identity u ∈ identity <$> l))
        by (by intros [? _]).
      rewrite (bool_decide_eq_false_2 (name = CACHE_NAME ∧ identity u = identity k))
        by (by intros [? _]).
      rewrite (bool_decide_eq_false_2
                 (name = CACHE_NAME ∧ identity u ∈ identity k :: (identity <$> l)));
        [done|].
      by intros [? _].
Qed.

Lemma cleanupOldData_unfold (now : Z) (st : CacheStorage) :
  run (cleanupOldData now) st =
  try_catch (cleanup_loop now CACHE_NAME (swept_requests st))
            (λ _, console_error "Service Worker: Cleanup failed")
            {| caches := open CACHE_NAME st; trace := [] |}.
Proof. reflexivity. Qed.

Lemma swept_requests_NoDup (st : CacheStorage) : NoDup (identity <$> swept_requests st).
Proof.
  unfold swept_requests. destruct (lookup_cache _ _); [|constructor].
  rewrite fmap_identity_proj. apply NoDup_fst_map_to_list.
Qed.

Lemma swept_requests_elem (st : CacheStorage) (u : string) :
  identity u ∈ identity <$> swept_requests st ↔ is_Some (entry st CACHE_NAME u).
Proof.
  rewrite <- (entry_open CACHE_NAME). unfold swept_requests, entry.
  destruct (lookup_cache _ _) as [c|]; simpl.
  - rewrite fmap_identity_proj, list_elem_of_fmap. split.
    + intros [[k r] [-> H%elem_of_map_to_list]]. by eexists.
    + intros [r Hr]. exists (identity u, r). split; [done|]. by apply elem_of_map_to_list.
  - split; [by intros ?%elem_of_nil | by intros [? ?]].
Qed.

Lemma cleanupOldData_spec (now : Z) (st : CacheStorage) :
  result_of (run (cleanupOldData now) st) = Ok tt ∧
  ∀ name u,
    entry (caches_of (run (cleanupOldData now) st)) name u =
    if String.eqb name CACHE_NAME
    then survivor now (entry st CACHE_NAME u)
    else entry st name u.
Proof.
  rewrite cleanupOldData_unfold. unfold result_of, caches_of, try_catch.
  set (w := {| caches := open CACHE_NAME st; trace := [] |}).
  destruct (cleanup_loop_spec now (swept_requests st) w) as [Hres Hent].
  { apply swept_requests_NoDup. }
  { intros k Hk. simpl. rewrite entry_open. apply swept_requests_elem.
    by apply list_elem_of_fmap_2. }
  destruct (cleanup_loop now CACHE_NAME (swept_requests st) w) as [[[]|e] w'];
    simpl in *; [|done].
  split; [done|]. intros name u. rewrite Hent, !entry_open.
  destruct (String.eqb name CACHE_NAME) eqn:E.
  - apply String.eqb_eq in E as ->. case_bool_decide as Hd; [done|].
    assert (entry st CACHE_NAME u = None) as ->; [|done].
    apply eq_None_not_Some. intros H%swept_requests_elem. by apply Hd.
  - apply String.eqb_neq in E. rewrite bool_decide_eq_false_2; [done|]. by intros [? _].
Qed.

End Cleanup.

(** ** The stored game data *)

Section GameData.
Import CacheStorageOps.

Lemma storeGameData_run (gameData : JSval) (w : World) :
  storeGameData gameData w =
  (Ok tt,
   {| caches := update CACHE_NAME
                  (insert (identity (resolve "/game-data")) (game_data_response gameData))
                  (open CACHE_NAME (caches w));
      trace := trace w ++ [ConsoleLog "Service Worker: Game data stored"] |}).
Proof. reflexivity. Qed.

Lemma entry_after_store (gameData : JSval) (st : CacheStorage) :
  entry (caches_of (run (storeGameData gameData) st)) CACHE_NAME (resolve "/game-data")
  = Some (game_data_response gameData).
Proof.
  unfold caches_of, run. rewrite storeGameData_run. simpl.
  rewrite entry_put; [by rewrite decide_True | apply has_open].
Qed.

Lemma getStoredGameData_run (w : World) :
  getStoredGameData w =
  let w' := {| caches := open CACHE_NAME (caches w); trace := trace w |} in
  match entry (caches w) CACHE_NAME (resolve "/game-data") with
  | Some r =>
      match JSON_parse (body r) with
      | Some v => (Ok v, w')
      | None =>
          (Ok VNull,
           {| caches := caches w';
              trace := trace w ++ [ConsoleError "Service Worker: Failed to get game data"] |})
      end
  | None => (Ok VNull, w')
  end.
Proof.
  unfold getStoredGameData, try_catch.
  unfold mbind at 1. unfold M_bind at 1. simpl.
  unfold mbind at 1. unfold M_bind at 1. rewrite cache_match_run. simpl.
  rewrite entry_open.
  destruct (entry (caches w) CACHE_NAME (resolve "/game-data")) as [r|]; [|done].
  unfold json. by destruct (JSON_parse (body r)).
Qed.

End GameData.

Lemma on_message_store (gameData : JSval) (ports : list nat) (st : CacheStorage) :
  caches_of (run (on_message (STORE_GAME_DATA gameData ports)) st) =
  caches_of (run (storeGameData gameData) st).
Proof. reflexivity. Qed.

(** C9. For a value [v] that [JSON.stringify] and [JSON.parse] carry
    there and back, the message [STORE_GAME_DATA] with [gameData = v]
    followed by the message [GET_STORED_DATA] makes the worker post
    exactly one reply, [{ data: v }], on the first port of the second
    message. *)
Theorem game_data_round_trip
    (st : CacheStorage) (v : JSval) (text : string) (ports ports' : list nat) (p : nat) :
  JSON_stringify v = Some text →
  JSON_parse text = Some v →
  let stored := caches_of (run (on_message (STORE_GAME_DATA v ports)) st) in
  let o := run (on_message (GET_STORED_DATA (p :: ports'))) stored in
  result_of o = Ok tt ∧
  posted (trace_of o) = [PostMessage p (VObj [("data", v)])].
Proof.
  intros Hs Hp stored o. subst stored o. rewrite on_message_store.
  pose proof (entry_after_store v st) as Hentry.
  set (stored := caches_of (run (storeGameData v) st)) in *.
  assert (run (on_message (GET_STORED_DATA (p :: ports'))) stored =
          (Ok tt,
           {| caches := CacheStorageOps.open CACHE_NAME stored;
              trace := [ConsoleLog "Service Worker: Message received";
                        PostMessage p (VObj [("data", v)])] |})) as ->.
  { unfold run, on_message. simpl.
    unfold mbind at 1. unfold M_bind at 1. simpl.
    unfold mbind at 1. unfold M_bind at 1. rewrite getStoredGameData_run. simpl.
    rewrite Hentry. unfold game_data_response. simpl. rewrite Hs. simpl. by rewrite Hp. }
  done.
Qed.

(** ** Retention *)

(** C10, amended. The cleanup pass dates an entry by the [date] header
    of its stored response: an entry whose header denotes the time [T]
    is deleted exactly when the clock reading is later than
    [T + maxAge].  A missing or empty header gives the epoch, so an entry
    without a [date] header is deleted exactly by the passes at a clock
    reading later than [maxAge], seven days after the epoch, and is kept,
    unchanged, by a pass at an earlier reading; and the entry written by
    [storeGameData], whose only header is [Content-Type], is such an
    entry. *)
Theorem undated_entries_are_swept :
  (∀ now st u r text T,
     entry st CACHE_NAME u = Some r →
     headers_get (headers r) "date" = Some text →
     text ≠ EmptyString →
     Date_parse text = Some T →
     entry (caches_of (run (cleanupOldData now) st)) CACHE_NAME u
     = if maxAge <? now - T then None else Some r) ∧
  (∀ now st u r,
     entry st CACHE_NAME u = Some r →
     headers_get (headers r) "date" = None ∨
     headers_get (headers r) "date" = Some EmptyString →
     entry (caches_of (run (cleanupOldData now) st)) CACHE_NAME u
     = if maxAge <? now then None else Some r) ∧
  (∀ st gameData,
     ∃ r, entry (caches_of (run (storeGameData gameData) st))
                CACHE_NAME (resolve "/game-data") = Some r ∧
          headers r = [("Content-Type", "application/json")] ∧
          headers_get (headers r) "date" = None).
Proof.
  split; [|split].
  - intros now st u r text T Hentry Hdate Htext Hparse.
    destruct (cleanupOldData_spec now st) as [_ ->].
    rewrite String.eqb_refl, Hentry. simpl.
    unfold too_old, date_time. rewrite Hdate.
    apply String.eqb_neq in Htext. rewrite Htext, Hparse. reflexivity.
  - intros now st u r Hentry Hdate.
    destruct (cleanupOldData_spec now st) as [_ ->].
    rewrite String.eqb_refl, Hentry. simpl.
    unfold too_old, date_time.
    destruct Hdate as [-> | ->]; simpl; by rewrite Z.sub_0_r.
  - intros st gameData. exists (game_data_response gameData).
    split; [apply entry_after_store | done].
Qed.

(** C5, amended. The age of an entry is measured from the time [T] of
    the [date] header of its stored response (the epoch when the header
    is missing or empty), not from the moment the entry was written: a
    cleanup pass at a clock reading up to [T + maxAge] leaves the entry
    as it is and a pass after [T + maxAge] deletes it; so the entry is
    present after a pass at [T] + 6 days 23 hours and absent after a
    pass at [T] + 7 days 1 hour. *)
Theorem sweep_boundary_by_date_header
    (st : CacheStorage) (u : string) (r : Response) (T : Z) :
  entry st CACHE_NAME u = Some r →
  date_time r = Some T →
  let after now := entry (caches_of (run (cleanupOldData now) st)) CACHE_NAME u in
  (∀ now, now ≤ T + maxAge → after now = Some r) ∧
  (∀ now, T + maxAge < now → after now = None) ∧
  after (T + (6 * 24 + 23) * 60 * 60 * 1000) = Some r ∧
  after (T + (7 * 24 + 1) * 60 * 60 * 1000) = None.
Proof.
  intros Hentry Hdate after.
  assert (Hafter : ∀ now, after now = if maxAge <? now - T then None else Some r).
  { intros now. unfold after. destruct (cleanupOldData_spec now st) as [_ ->].
    rewrite String.eqb_refl, Hentry. simpl. unfold too_old. by rewrite Hdate. }
  assert (Hkeep : ∀ now, now ≤ T + maxAge → after now = Some r).
  { intros now Hnow. rewrite Hafter.
    destruct (Z.ltb_spec maxAge (now - T)); [lia | done]. }
  assert (Hdrop : ∀ now, T + maxAge < now → after now = None).
  { intros now Hnow. rewrite Hafter.
    destruct (Z.ltb_spec maxAge (now - T)); [done | lia]. }
  repeat split; [exact Hkeep | exact Hdrop | apply Hkeep | apply Hdrop];
    unfold maxAge; lia.
Qed.

(** C4, amended. The cleanup pass makes no exception for the
    [/game-data] entry: what it leaves of it is decided, as for every
    entry, by the age computed from the [date] header.  The record
    written by [storeGameData] carries no such header, so after a pass
    it is still there exactly when the clock reading is at most
    [maxAge]; a pass never alters a record it leaves. *)
Theorem sweep_does_not_exempt_game_data (now : Z) (st : CacheStorage) :
  let key := resolve "/game-data" in
  entry (caches_of (run (cleanupOldData now) st)) CACHE_NAME key
  = survivor now (entry st CACHE_NAME key) ∧
  ∀ gameData,
    entry (caches_of (run (cleanupOldData now)
                          (caches_of (run (storeGameData gameData) st))))
          CACHE_NAME key
    = if maxAge <? now then None else Some (game_data_response gameData).
Proof.
  intros key. split.
  - destruct (cleanupOldData_spec now st) as [_ ->]. by rewrite String.eqb_refl.
  - intros gameData.
    destruct (cleanupOldData_spec now (caches_of (run (storeGameData gameData) st)))
      as [_ ->].
    rewrite String.eqb_refl. unfold key. rewrite entry_after_store. simpl.
    unfold too_old, date_time. simpl. by rewrite Z.sub_0_r.
Qed.

(** ** Background sync *)

Section BackgroundSync.
Import CacheStorageOps.

Lemma getStoredGameData_run' (w : World) :
  getStoredGameData w =
  (Ok (stored_value (caches w)),
   {| caches := open CACHE_NAME (caches w);
      trace := trace w ++ getStoredGameData_trace (caches w) |}).
Proof.
  rewrite getStoredGameData_run. unfold stored_value, getStoredGameData_trace.
  destruct (entry (caches w) CACHE_NAME (resolve "/game-data")) as [r|]; simpl.
  - destruct (JSON_parse (body r)); simpl; by rewrite ?app_nil_r.
  - by rewrite app_nil_r.
Qed.

Lemma syncGameProgress_run (net : Network) (gameData : JSval) (w : World) :
  syncGameProgress net gameData w =
  (Ok tt,
   {| caches := caches w;
      trace := trace w ++ syncGameProgress_trace net gameData |}).
Proof.
  unfold syncGameProgress, syncGameProgress_trace, try_catch, fetch.
  unfold mbind, M_bind. simpl.
  destruct sync_supported; simpl; [|done].
  destruct (net "POST" (resolve "/api/sync-progress")) as [response|]; simpl.
  - destruct (ok response); unfold console_log, emit; simpl; by rewrite <- ?app_assoc.
  - unfold console_error, emit. simpl. by rewrite <- !app_assoc.
Qed.

Lemma checkForUpdates_run (w : World) :
  checkForUpdates w =
  (Ok tt,
   {| caches := open CACHE_NAME (caches w);
      trace := trace w ++ checkForUpdates_trace (caches w) |}).
Proof.
  unfold checkForUpdates, checkForUpdates_trace, manifest_version, try_catch.
  unfold mbind at 1. unfold M_bind at 1. simpl.
  unfold mbind at 1. unfold M_bind at 1. rewrite cache_match_run. simpl.
  rewrite entry_open.
  destruct (entry (caches w) CACHE_NAME (resolve "/manifest.json")) as [m|]; simpl;
    [|by rewrite app_nil_r].
  unfold json, read, mbind, M_bind, option_bind.
  destruct (JSON_parse (body m)) as [manifestData|]; simpl; [|done].
  destruct (JS.get manifestData "version") as [version|]; simpl; [|done].
  destruct (JS.strict_eq version currentVersion); simpl;
    by rewrite <- ?app_assoc, ?app_nil_r.
Qed.

Lemma doBackgroundSync_run (net : Network) (st : CacheStorage) :
  run (doBackgroundSync net) st =
  (Ok tt,
   {| caches := open CACHE_NAME (open CACHE_NAME st);
      trace :=
        getStoredGameData_trace st
        ++ (if JS.truthy (stored_value st)
            then syncGameProgress_trace net (stored_value st)
                 ++ [ConsoleLog "Service Worker: Game progress synced"]
            else [])
        ++ checkForUpdates_trace st |}).
Proof.
  assert (Hcheck : checkForUpdates_trace (open CACHE_NAME st) = checkForUpdates_trace st).
  { unfold checkForUpdates_trace, manifest_version. by rewrite !entry_open. }
  unfold run, doBackgroundSync, try_catch.
  unfold mbind at 1. unfold M_bind at 1. rewrite getStoredGameData_run'. simpl.
  unfold mbind at 1. unfold M_bind at 1.
  destruct (JS.truthy (stored_value st)).
  - unfold mbind at 1. unfold M_bind at 1. rewrite syncGameProgress_run. simpl.
    rewrite checkForUpdates_run. simpl. rewrite Hcheck.
    by rewrite <- !app_assoc.
  - simpl. rewrite checkForUpdates_run. simpl. by rewrite Hcheck.
Qed.

End BackgroundSync.

(** C7, amended. A sync cycle does not fetch the manifest: it reads
    the snapshot stored in the current cache under [/manifest.json] and
    compares its [version] with the version of [CACHE_NAME], which is
    ["1.0.0"].  When they differ the cycle shows exactly one
    notification, the update notification; when they are equal, or when
    there is no readable snapshot, it shows none.  The cycle never calls
    [skipWaiting], and its only network request is the POST of the
    stored progress. *)
Theorem sync_cycle_notifies_once_on_version_mismatch (st : CacheStorage) (net : Network) :
  let o := run (doBackgroundSync net) st in
  result_of o = Ok tt ∧
  notifications (trace_of o) =
    match manifest_version st with
    | Some version =>
        if JS.strict_eq version currentVersion then [] else [update_notification]
    | None => []
    end ∧
  skip_waiting_calls (trace_of o) = [] ∧
  network_calls (trace_of o) =
    (if JS.truthy (stored_value st) && sync_supported
     then [NetFetch "POST" (resolve "/api/sync-progress") (JSON_stringify (stored_value st))]
     else []) ∧
  currentVersion = VStr "1.0.0".
Proof.
  intros o. subst o. rewrite doBackgroundSync_run.
  unfold result_of, trace_of, notifications, skip_waiting_calls, network_calls.
  cbn [fst snd trace]. rewrite !filter_app.
  assert (Hget : ∀ f, (f = is_ShowNotification ∨ f = is_SkipWaiting ∨ f = is_NetFetch) →
            filter (λ e, f e = true) (getStoredGameData_trace st) = []).
  { intros f Hf. unfold getStoredGameData_trace.
    destruct (entry st CACHE_NAME (resolve "/game-data")) as [r|]; [|done].
    destruct (JSON_parse (body r)); [done|].
    by destruct Hf as [->|[->| ->]]. }
  assert (Hcheck : ∀ f, (f = is_SkipWaiting ∨ f = is_NetFetch) →
            filter (λ e, f e = true) (checkForUpdates_trace st) = []).
  { intros f Hf. unfold checkForUpdates_trace.
    destruct (entry st CACHE_NAME (resolve "/manifest.json")) as [m|]; [|done].
    destruct (manifest_version st) as [version|]; [|by destruct Hf as [->| ->]].
    destruct (JS.strict_eq version currentVersion); [done|].
    by destruct Hf as [->| ->]. }
  rewrite (Hget is_ShowNotification), (Hget is_SkipWaiting), (Hget is_NetFetch),
    (Hcheck is_SkipWaiting), (Hcheck is_NetFetch) by auto.
  assert (Hsync : ∀ f, (f = is_ShowNotification ∨ f = is_SkipWaiting) →
            filter (λ e, f e = true)
              (if JS.truthy (stored_value st)
               then (syncGameProgress_trace net (stored_value st)
                     ++ [ConsoleLog "Service Worker: Game progress synced"])%list
               else []) = []).
  { intros f Hf. destruct (JS.truthy (stored_value st)); [|done].
    unfold syncGameProgress_trace. destruct sync_supported; [|by destruct Hf as [->| ->]].
    destruct (net "POST" (resolve "/api/sync-progress")) as [response|];
      [destruct (ok response)|]; by destruct Hf as [->| ->]. }
  rewrite (Hsync is_ShowNotification), (Hsync is_SkipWaiting) by auto.
  split; [done|]. split; [|split; [done|split; [|reflexivity]]].
  - simpl. unfold checkForUpdates_trace, manifest_version.
    destruct (entry st CACHE_NAME (resolve "/manifest.json")) as [m|]; [|done]. simpl.
    destruct (JSON_parse (body m)) as [manifestData|]; [|done]. simpl.
    destruct (JS.get manifestData "version") as [version|]; [|done].
    by destruct (JS.strict_eq version currentVersion).
  - rewrite app_nil_r. simpl. destruct (JS.truthy (stored_value st)); [|done].
    unfold syncGameProgress_trace. destruct sync_supported; [|done].
    destruct (net "POST" (resolve "/api/sync-progress")) as [response|]; [|done].
    by destruct (ok response).
Qed.

(** ** Installation *)

Section Installation.
Import CacheStorageOps.

Lemma accepted_fails (net : Network) (targets : list string) (u : string) :
  u ∈ targets → addable (net "GET" u) = false →
  accepted (request_all net targets) = None.
Proof.
  intros Hin Hbad. unfold request_all.
  induction targets as [|t targets IH]; [by apply elem_of_nil in Hin|].
  rewrite fmap_cons. cbn [accepted]. apply elem_of_cons in Hin as [<-|Hin].
  - by rewrite Hbad.
  - rewrite (IH Hin). destruct (addable (net "GET" t)); [|done].
    by destruct (net "GET" t).
Qed.

Lemma on_install_failure_run (net : Network) (st : CacheStorage) :
  accepted (request_all net (resolve <$> STATIC_ASSETS)) = None →
  run (on_install net) st =
  (Ok tt,
   {| caches := open CACHE_NAME st;
      trace :=
        [ConsoleLog "Service Worker: Installing...";
         ConsoleLog "Service Worker: Caching files";
         CacheAddAll (resolve <$> STATIC_ASSETS);
         ConsoleError "Service Worker: Cache failed"] |}).
Proof.
  intros Hacc. unfold run, on_install.
  set (targets := resolve <$> STATIC_ASSETS) in *. clearbody targets.
  unfold mbind at 1. unfold M_bind at 1. simpl. unfold try_catch.
  unfold mbind at 1. unfold M_bind at 1. simpl.
  unfold mbind at 1. unfold M_bind at 1. simpl.
  unfold mbind at 1. unfold M_bind at 1. unfold cache_addAll.
  unfold mbind at 1. unfold M_bind at 1. simpl.
  rewrite Hacc. reflexivity.
Qed.

End Installation.

(** C2, amended. When the fetch of one of the assets fails, the install
    handler catches the rejection of [cache.addAll] and logs it: the
    promise handed to [waitUntil] fulfils, so no failure reaches the
    platform.  Nothing is written: the storage is the one obtained by
    opening the current cache, every entry of that cache is as before,
    and a cache that did not exist is left empty.  [skipWaiting] is not
    called. *)
Theorem failed_install_is_logged_and_writes_nothing
    (st : CacheStorage) (net : Network) (asset : string) :
  asset ∈ resolve <$> STATIC_ASSETS →
  net "GET" asset = None →
  let o := run (on_install net) st in
  result_of o = Ok tt ∧
  ¬ reports_failure o ∧
  ConsoleError "Service Worker: Cache failed" ∈ trace_of o ∧
  skip_waiting_calls (trace_of o) = [] ∧
  caches_of o = CacheStorageOps.open CACHE_NAME st ∧
  (∀ u, entry (caches_of o) CACHE_NAME u = entry st CACHE_NAME u) ∧
  (CacheStorageOps.lookup_cache CACHE_NAME st = None →
   CacheStorageOps.lookup_cache CACHE_NAME (caches_of o) = Some ∅).
Proof.
  intros Hin Hfail o. subst o.
  rewrite on_install_failure_run
    by (eapply accepted_fails; [exact Hin | by rewrite Hfail]).
  unfold reports_failure, result_of, trace_of, caches_of. cbn [fst snd trace caches].
  split; [done|]. split; [by intros [e ?]|]. split; [|split; [|split; [done|split]]].
  - do 3 apply list_elem_of_further. apply list_elem_of_here.
  - reflexivity.
  - intros u. apply entry_open.
  - intros Hnone. rewrite lookup_cache_open, Hnone. by rewrite String.eqb_refl.
Qed.

(** ** Further properties of the handlers *)

(** *** install, when every asset is accepted *)

Lemma put_all_run (cache : string) (entries : list (string * Response)) (w : World) :
  put_all cache entries w =
  (Ok tt,
   {| caches := foldl (λ st e, CacheStorageOps.update cache (insert (identity (fst e)) (snd e)) st)
                      (caches w) entries;
      trace := trace w |}).
Proof.
  revert w. induction entries as [|[u r] entries IH]; intros w.
  - by destruct w.
  - simpl. unfold mbind at 1. unfold M_bind at 1. simpl. by rewrite IH.
Qed.

Lemma entry_put_all (f : string → option Response) (entries : list (string * Response))
    (st : CacheStorage) (name u : string) :
  is_Some (CacheStorageOps.lookup_cache CACHE_NAME st) →
  (∀ e, e ∈ entries → f (fst e) = Some (snd e)) →
  (∀ k, k ∈ entries.*1 → without_fragment k = k) →
  entry (foldl (λ st e, CacheStorageOps.update CACHE_NAME (insert (identity (fst e)) (snd e)) st)
               st entries) name u
  = if bool_decide (name = CACHE_NAME ∧ without_fragment u ∈ entries.*1)
    then f (without_fragment u) else entry st name u.
Proof.
  revert st. induction entries as [|[k r] entries IH]; intros st Hsome Hf Hk.
  - simpl. rewrite bool_decide_eq_false_2; [done|]. by intros [_ ?%elem_of_nil].
  - simpl. rewrite IH.
    + destruct (decide (name = CACHE_NAME)) as [->|Hname].
      * destruct (decide (without_fragment u ∈ entries.*1)) as [Hin|Hnin].
        -- rewrite !bool_decide_eq_true_2; [done | | done].
           split; [done | by apply list_elem_of_further].
        -- rewrite (bool_decide_eq_false_2
                      (CACHE_NAME = CACHE_NAME ∧ without_fragment u ∈ entries.*1))
             by (by intros [_ ?]).
           rewrite entry_put by done.
           assert (Hkk : without_fragment k = k) by (apply Hk, list_elem_of_here).
           destruct (decide (identity k = identity u)) as [Heq|Hne].
           ++ apply identity_eq in Heq. rewrite Hkk in Heq. rewrite <- Heq.
              rewrite bool_decide_eq_true_2; [|split; [done | apply list_elem_of_here]].
              symmetry. apply (Hf (k, r)), list_elem_of_here.
           ++ rewrite bool_decide_eq_false_2; [done|].
              intros [_ [Heq|?]%elem_of_cons]; [|done].
              apply Hne, identity_eq. by rewrite Hkk.
      * rewrite !bool_decide_eq_false_2 by (by intros [? _]).
        by apply entry_update_other.
    + rewrite lookup_cache_update, String.eqb_refl.
      destruct Hsome as [c ->]. by eexists.
    + intros e He. apply Hf. by apply list_elem_of_further.
    + intros k' Hk'. apply Hk. by apply list_elem_of_further.
Qed.

Lemma accepted_all (net : Network) (targets : list string) :
  (∀ u, u ∈ targets → addable (net "GET" u) = true) →
  ∃ entries,
    accepted (request_all net targets) = Some entries ∧
    entries.*1 = targets ∧
    ∀ e, e ∈ entries → net "GET" (fst e) = Some (snd e).
Proof.
  unfold request_all. induction targets as [|u targets IH]; intros Hall.
  - exists []. split; [done|]. split; [done|]. by intros e ?%elem_of_nil.
  - destruct IH as (entries & Hacc & Hfst & Hnet).
    { intros v Hv. apply Hall. by apply list_elem_of_further. }
    pose proof (Hall u (list_elem_of_here _ _)) as Hu.
    destruct (net "GET" u) as [r|] eqn:Hr; [|done].
    exists ((u, r) :: entries). rewrite fmap_cons. cbn [accepted].
    rewrite Hr, Hu, Hacc. split; [done|]. split.
    + rewrite fmap_cons. simpl. by rewrite Hfst.
    + intros e [->|He]%elem_of_cons; [exact Hr | by apply Hnet].
Qed.

Lemma accepted_Some_all (net : Network) (targets : list string) entries :
  accepted (request_all net targets) = Some entries →
  ∀ u, u ∈ targets → addable (net "GET" u) = true.
Proof.
  intros Hacc u Hu. destruct (addable (net "GET" u)) eqn:Hbad; [done|].
  by rewrite (accepted_fails net targets u Hu Hbad) in Hacc.
Qed.

Lemma on_install_success_run (net : Network) (st : CacheStorage) entries :
  accepted (request_all net (resolve <$> STATIC_ASSETS)) = Some entries →
  run (on_install net) st =
  (Ok tt,
   {| caches := foldl (λ st e, CacheStorageOps.update CACHE_NAME (insert (identity (fst e)) (snd e)) st)
                      (CacheStorageOps.open CACHE_NAME st) entries;
      trace :=
        [ConsoleLog "Service Worker: Installing...";
         ConsoleLog "Service Worker: Caching files";
         CacheAddAll (resolve <$> STATIC_ASSETS);
         ConsoleLog "Service Worker: Files cached successfully"; SkipWaiting] |}).
Proof.
  intros Hacc. unfold run, on_install.
  set (targets := resolve <$> STATIC_ASSETS) in *. clearbody targets.
  unfold mbind at 1. unfold M_bind at 1. simpl. unfold try_catch.
  unfold mbind at 1. unfold M_bind at 1. simpl.
  unfold mbind at 1. unfold M_bind at 1. simpl.
  unfold mbind at 1. unfold M_bind at 1. unfold cache_addAll.
  unfold mbind at 1. unfold M_bind at 1. simpl.
  rewrite Hacc. rewrite put_all_run. reflexivity.
Qed.

(** With an origin without a fragment sign, the seven asset URLs are
    their own identities. *)
Lemma static_assets_without_fragment (u : string) :
  without_fragment origin = origin →
  u ∈ resolve <$> STATIC_ASSETS → without_fragment u = u.
Proof.
  intros Horigin. unfold STATIC_ASSETS. rewrite !fmap_cons, fmap_nil.
  rewrite !elem_of_cons, elem_of_nil.
  intros [->|[->|[->|[->|[->|[->|[->|[]]]]]]]];
    first [ unfold resolve; simpl; by rewrite (without_fragment_app _ _ Horigin)
          | vm_compute; reflexivity ].
Qed.

Lemma install_success_entry (st : CacheStorage) (net : Network) (name u : string) :
  without_fragment origin = origin →
  (∀ v, v ∈ resolve <$> STATIC_ASSETS → addable (net "GET" v) = true) →
  entry (caches_of (run (on_install net) st)) name u
  = if bool_decide (name = CACHE_NAME ∧ without_fragment u ∈ resolve <$> STATIC_ASSETS)
    then net "GET" (without_fragment u) else entry st name u.
Proof.
  intros Horigin Hall.
  destruct (accepted_all net _ Hall) as (entries & Hacc & Hfst & Hnet).
  rewrite (on_install_success_run net st entries Hacc). unfold caches_of. cbn [snd caches].
  rewrite (entry_put_all (net "GET")); [|apply has_open|exact Hnet|].
  - by rewrite Hfst, entry_open.
  - rewrite Hfst. intros k. by apply static_assets_without_fragment.
Qed.

(** X1. On an origin without a fragment sign, when every asset is
    answered with an ok status other than 206, the install handler
    stores each asset under its resolved URL with the response the
    network gave for it and leaves every other entry as it was; it calls
    [cache.addAll] once, with the seven asset URLs, makes no [fetch]
    request of its own, calls [skipWaiting] once, as its last call, and
    fulfils the promise. *)
Theorem install_stores_every_asset (st : CacheStorage) (net : Network) :
  without_fragment origin = origin →
  (∀ u, u ∈ resolve <$> STATIC_ASSETS → addable (net "GET" u) = true) →
  let o := run (on_install net) st in
  result_of o = Ok tt ∧
  (∀ u, u ∈ resolve <$> STATIC_ASSETS → entry (caches_of o) CACHE_NAME u = net "GET" u) ∧
  (∀ name u, ¬ (name = CACHE_NAME ∧ without_fragment u ∈ resolve <$> STATIC_ASSETS) →
             entry (caches_of o) name u = entry st name u) ∧
  filter (λ e, is_CacheAddAll e = true) (trace_of o)
  = [CacheAddAll (resolve <$> STATIC_ASSETS)] ∧
  network_calls (trace_of o) = [] ∧
  skip_waiting_calls (trace_of o) = [SkipWaiting] ∧
  last (trace_of o) = Some SkipWaiting.
Proof.
  intros Horigin Hall o. subst o.
  pose proof (λ name u, install_success_entry st net name u Horigin Hall) as Hentry.
  destruct (accepted_all net _ Hall) as (entries & Hacc & Hfst & Hnet).
  rewrite (on_install_success_run net st entries Hacc) in *.
  unfold result_of, caches_of, trace_of, skip_waiting_calls, network_calls in *.
  cbn [fst snd caches trace] in *.
  split; [done|]. split; [|split; [|split; [|split; [|split]]]].
  - intros u Hu. rewrite Hentry.
    rewrite (static_assets_without_fragment u Horigin Hu).
    by rewrite bool_decide_eq_true_2.
  - intros name u Hnot. rewrite Hentry. by rewrite bool_decide_eq_false_2.
  - reflexivity.
  - reflexivity.
  - reflexivity.
  - reflexivity.
Qed.

(** X2. Whatever the network answers, the promise the install handler
    hands to [waitUntil] fulfils; [skipWaiting] is called, once, exactly
    when every asset was answered with an ok status other than 206, and
    not at all otherwise. *)
Theorem install_never_rejects (st : CacheStorage) (net : Network) :
  let o := run (on_install net) st in
  result_of o = Ok tt ∧
  (skip_waiting_calls (trace_of o) = [SkipWaiting] ∨ skip_waiting_calls (trace_of o) = []) ∧
  (skip_waiting_calls (trace_of o) = [SkipWaiting] ↔
   ∀ u, u ∈ resolve <$> STATIC_ASSETS → addable (net "GET" u) = true).
Proof.
  intros o. subst o.
  destruct (accepted (request_all net (resolve <$> STATIC_ASSETS)))
    as [entries|] eqn:Hacc.
  - rewrite (on_install_success_run net st entries Hacc).
    unfold result_of, trace_of, skip_waiting_calls. cbn [fst snd trace].
    split; [done|]. split; [by left|]. split; [|done].
    intros _. by eapply accepted_Some_all.
  - rewrite (on_install_failure_run net st Hacc).
    unfold result_of, trace_of, skip_waiting_calls. cbn [fst snd trace].
    split; [done|]. split; [by right|]. split; [done|].
    intros Hall. destruct (accepted_all net _ Hall) as (entries & Hsome & _).
    congruence.
Qed.


(** *** activate, exactly *)

Lemma filter_ext_in {A} (P Q : A → Prop) `{!∀ x, Decision (P x)} `{!∀ x, Decision (Q x)}
    (l : list A) :
  (∀ x, x ∈ l → P x ↔ Q x) → filter P l = filter Q l.
Proof.
  induction l as [|x l IH]; intros Hext; [done|].
  rewrite !filter_cons.
  rewrite IH by (intros y Hy; apply Hext; by apply list_elem_of_further).
  pose proof (Hext x (list_elem_of_here _ _)) as Hx.
  destruct (decide (P x)) as [HP|HP], (decide (Q x)) as [HQ|HQ]; try done.
  - destruct HQ. by apply Hx.
  - destruct HP. by apply Hx.
Qed.

Lemma prune_filter (cacheNames : list string) (st : CacheStorage) :
  prune cacheNames st =
  filter (λ nc, fst nc = CACHE_NAME ∨ fst nc ∉ cacheNames) st.
Proof.
  revert st. induction cacheNames as [|n l IH]; intros st.
  - simpl. symmetry. induction st as [|x st IHst]; [done|].
    rewrite filter_cons_True by (right; apply not_elem_of_nil). by rewrite IHst.
  - simpl. rewrite IH. destruct (String.eqb n CACHE_NAME) eqn:En.
    + apply String.eqb_eq in En as ->. apply list_filter_iff. intros x.
      rewrite not_elem_of_cons. split.
      * intros [?|?]; [by left|]. destruct (decide (fst x = CACHE_NAME)); [by left | by right].
      * intros [?|[_ ?]]; [by left | by right].
    + apply String.eqb_neq in En. unfold CacheStorageOps.delete.
      rewrite list_filter_filter. apply list_filter_iff. intros x.
      rewrite not_elem_of_cons, negb_True, Is_true_true, String.eqb_eq.
      split.
      * intros [[?|?] ?]; [by left | by right].
      * intros [Hx|[? ?]]; [|by split; [right|]]. split; [by left|]. congruence.
Qed.

Lemma delete_old_caches_trace (cacheNames : list string) (w : World) :
  trace (snd (delete_old_caches cacheNames w)) =
  (trace w ++ ((λ _, ConsoleLog "Service Worker: Deleting old cache")
                 <$> filter (λ n, n ≠ CACHE_NAME) cacheNames))%list.
Proof.
  revert w. induction cacheNames as [|n l IH]; intros w.
  - simpl. by rewrite app_nil_r.
  - simpl. unfold mbind at 1. unfold M_bind at 1.
    destruct (String.eqb n CACHE_NAME) eqn:En; simpl; rewrite IH; simpl.
    + apply String.eqb_eq in En as ->. by rewrite filter_cons_False by (by intros ?).
    + apply String.eqb_neq in En. rewrite filter_cons_True by done.
      by rewrite <- app_assoc.
Qed.

(** X3. Activation keeps exactly the caches called [CACHE_NAME], in
    their order and with their content, so a second activation changes
    nothing; it logs one deletion for every other cache name, makes no
    network request, and claims the clients as its last call. *)
Theorem activate_keeps_current_cache_only (st : CacheStorage) :
  let o := run on_activate st in
  caches_of o = filter (λ nc, fst nc = CACHE_NAME) st ∧
  caches_of (run on_activate (caches_of o)) = caches_of o ∧
  trace_of o =
    ([ConsoleLog "Service Worker: Activating..."]
     ++ ((λ _, ConsoleLog "Service Worker: Deleting old cache")
           <$> filter (λ n, n ≠ CACHE_NAME) (CacheStorageOps.keys st))
     ++ [ConsoleLog "Service Worker: Activated"; ClientsClaim])%list.
Proof.
  intros o. subst o.
  assert (Hkeep : ∀ st', caches_of (run on_activate st')
                         = filter (λ nc, fst nc = CACHE_NAME) st').
  { intros st'. destruct (on_activate_caches st') as [_ ->]. rewrite prune_filter.
    apply filter_ext_in. intros [n c] Hin. simpl. split; [|by left].
    intros [?|Hnot]; [done|]. destruct Hnot.
    unfold CacheStorageOps.keys. apply list_elem_of_fmap. by exists (n, c). }
  split; [apply Hkeep|]. split.
  - rewrite !Hkeep, list_filter_filter. apply list_filter_iff.
    intros x. split; [by intros [? _] | by intros ?].
  - unfold trace_of, run, on_activate.
    unfold mbind at 1. unfold M_bind at 1. simpl.
    unfold mbind at 1. unfold M_bind at 1. simpl.
    unfold mbind at 1. unfold M_bind at 1.
    match goal with |- context [delete_old_caches ?l ?w] =>
      pose proof (delete_old_caches_trace l w) as Htr;
      destruct (delete_old_caches_prune l w) as [Hres _];
      destruct (delete_old_caches l w) as [[[]|e] w'] end; [|done].
    simpl in *. rewrite Htr. by rewrite <- !app_assoc.
Qed.

(** *** no other cache is ever created *)

#[export] Instance names_within_stable
    (G : string → Response → Prop) (allowed : list string) :
  Stable G (names_within allowed).
Proof.
  split.
  - intros st H name. rewrite keys_open.
    destruct (CacheStorageOps.has CACHE_NAME st); [apply H|].
    intros [?| ->%list_elem_of_singleton]%elem_of_app; [by apply H | by right].
  - intros st u r _ H name. rewrite keys_update. apply H.
  - intros st u H name. rewrite keys_update. apply H.
  - intros st n H name. rewrite keys_delete.
    intros [_ ?]%list_elem_of_filter. by apply H.
Qed.

(** X17. Whatever the event, its inputs and the clock, the only cache a
    handler can add to the storage is the one called [CACHE_NAME]: every
    cache name found after the event was there before or is
    [CACHE_NAME]. *)
Theorem handlers_create_no_other_cache
    (now : Z) (e : Event) (st : CacheStorage) (name : string) :
  name ∈ CacheStorageOps.keys (step now e st) →
  name ∈ CacheStorageOps.keys st ∨ name = CACHE_NAME.
Proof.
  apply (step_keeps (λ _ _, True) (names_within (CacheStorageOps.keys st))); [done|].
  intros n Hn. by left.
Qed.


(** *** fetch: what is left alone, what is passed on, what is kept *)

Lemma step_fetch (now : Z) (net : Network) (request : Request) (st : CacheStorage) :
  step now (Fetch net request) st = caches_of (run (on_fetch net request) st).
Proof.
  unfold step, handle, caches_of, run. unfold mbind at 1. unfold M_bind at 1.
  by destruct (on_fetch net request _) as [[?|?] ?].
Qed.

(** X4. A request whose method is not GET, or whose URL fails the
    origin test, is left to the browser: the handler does not call
    [respondWith], reads and writes no cache, makes no network request of
    its own, and the page receives what the network answers. *)
Theorem fetch_leaves_other_requests_alone
    (st : CacheStorage) (net : Network) (request : Request) :
  method request ≠ "GET" ∨ intercepted_origin (url request) = false →
  run (on_fetch net request) st = (Ok NotIntercepted, mkWorld st []) ∧
  delivered_by net request (run (on_fetch net request) st)
  = net (method request) (url request).
Proof.
  intros Hother.
  assert (run (on_fetch net request) st = (Ok NotIntercepted, mkWorld st [])) as ->; [|done].
  rewrite on_fetch_run. destruct Hother as [Hm|Ho].
  - apply String.eqb_neq in Hm. by rewrite Hm.
  - rewrite Ho. by destruct (negb (String.eqb (method request) "GET")).
Qed.

(** X5. The promise given to [respondWith] never rejects.  When the
    caches hold nothing for the request and the network answers, the page
    receives exactly that answer, whatever its status and type; and
    unless the answer has status 200 and type [basic] the storage is left
    as it was. *)
Theorem fetch_passes_network_answers_on
    (st : CacheStorage) (net : Network) (request : Request) :
  (∃ outcome, result_of (run (on_fetch net request) st) = Ok outcome) ∧
  ∀ resp,
    CacheStorageOps.match_ (url request) st = None →
    net (method request) (url request) = Some resp →
    delivered_by net request (run (on_fetch net request) st) = Some resp ∧
    (¬ (status resp = 200 ∧ rtype resp = basic) →
     caches_of (run (on_fetch net request) st) = st).
Proof.
  rewrite on_fetch_run. split.
  - destruct (negb (String.eqb (method request) "GET")); [by eexists|].
    destruct (negb (intercepted_origin (url request))); [by eexists|].
    destruct (CacheStorageOps.match_ (url request) st); [by eexists|]. simpl.
    destruct (net (method request) (url request)) as [resp|]; [|by eexists].
    destruct (negb (status resp =? 200) || negb (ResponseType_eqb (rtype resp) basic));
      by eexists.
  - intros resp Hmiss Hnet. unfold delivered_by, result_of, caches_of.
    destruct (negb (String.eqb (method request) "GET")); [by split|].
    destruct (negb (intercepted_origin (url request))); [by split|].
    rewrite Hmiss. simpl. rewrite Hnet.
    destruct (negb (status resp =? 200) || negb (ResponseType_eqb (rtype resp) basic))
      eqn:Hc; [by split|].
    split; [done|]. intros Hnot. destruct Hnot.
    apply orb_false_iff in Hc as [Hs Ht]. apply negb_false_iff in Hs, Ht.
    split; [by apply Z.eqb_eq | by apply ResponseType_eqb_eq].
Qed.

(** X6. Once a serving worker has answered a GET request from the
    network with a response of status 200 and type [basic], the same
    request, and every GET request that passes the origin test and
    differs from it in the fragment only, is answered with that response
    from then on without any network request, also when the network has
    gone or answers differently. *)
Theorem repeated_request_is_served_from_cache
    (st : CacheStorage) (net : Network) (request : Request) (resp : Response) :
  serving st →
  method request = "GET" →
  intercepted_origin (url request) = true →
  entry st CACHE_NAME (url request) = None →
  net "GET" (url request) = Some resp →
  status resp = 200 →
  rtype resp = basic →
  ∀ now net' request',
    method request' = "GET" →
    intercepted_origin (url request') = true →
    without_fragment (url request') = without_fragment (url request) →
    let st' := step now (Fetch net request) st in
    run (on_fetch net' request') st' = (Ok (RespondWith (Some resp)), mkWorld st' []).
Proof.
  intros Hserving Hget Horigin Hmiss Hnet Hstatus Htype now net' request'
         Hget' Horigin' Hsame st'.
  assert (Hserving' : serving st') by (by apply serving_step).
  destruct (serving_inv st Hserving) as [Hnd Hcur].
  destruct (serving_inv st' Hserving') as [Hnd' Hcur'].
  assert (Hentry : entry st' CACHE_NAME (url request') = Some resp).
  { rewrite (entry_identity st' _ (url request') (url request))
      by (by apply identity_eq).
    unfold st'. rewrite step_fetch, on_fetch_run, Hget, Horigin. simpl.
    rewrite (match_only_current _ st Hnd Hcur), Hmiss. simpl.
    rewrite Hnet, Hstatus, Htype. simpl. unfold caches_of. simpl.
    rewrite entry_put; [by rewrite decide_True | apply has_open]. }
  rewrite on_fetch_run, Hget', Horigin'. simpl.
  by rewrite (match_only_current _ st' Hnd' Hcur'), Hentry.
Qed.


Lemma index_page_is_an_asset :
  origin ++ "/index_new.html" ∈ resolve <$> STATIC_ASSETS.
Proof.
  unfold STATIC_ASSETS. rewrite !fmap_cons.
  apply list_elem_of_further, list_elem_of_here.
Qed.

Lemma entry_activated (st : CacheStorage) (u : string) :
  entry (caches_of (run on_activate st)) CACHE_NAME u = entry st CACHE_NAME u.
Proof.
  destruct (on_activate_caches st) as [_ ->]. unfold entry.
  by rewrite lookup_cache_prune, String.eqb_refl, andb_false_r.
Qed.

(** X20. For a worker script at the root of its origin, an origin
    without a fragment sign, installed with every asset accepted and then
    activated: a navigation whose identity the caches do not hold and
    whose fetch fails is answered with the response that the install
    fetched for [/index_new.html]. *)
Theorem offline_fallback_after_successful_install
    (st0 : CacheStorage) (net0 net : Network) (request : Request) (now1 now2 : Z) :
  without_fragment origin = origin →
  base = origin ++ "/" →
  fresh st0 →
  (∀ u, u ∈ resolve <$> STATIC_ASSETS → addable (net0 "GET" u) = true) →
  let st := step now2 Activate (step now1 (Install net0) st0) in
  method request = "GET" →
  mode request = "navigate" →
  intercepted_origin (url request) = true →
  CacheStorageOps.match_ (url request) st = None →
  net "GET" (url request) = None →
  delivered_by net request (run (on_fetch net request) st)
  = net0 "GET" (origin ++ "/index_new.html") ∧
  is_Some (net0 "GET" (origin ++ "/index_new.html")).
Proof.
  intros Hfragment Hbase Hfresh Hall st Hget Hmode Horigin Hmiss Hnet.
  assert (Hserving : serving st).
  { apply serving_activated, installing_step; [by apply installing_fresh | done]. }
  destruct (serving_inv st Hserving) as [Hnd Hcur].
  assert (Hoffline : resolve OFFLINE_URL = origin ++ "/index_new.html").
  { unfold resolve. simpl. rewrite Hbase. apply string_append_assoc. }
  assert (Hdoc : CacheStorageOps.match_ (resolve OFFLINE_URL) st
                 = net0 "GET" (origin ++ "/index_new.html")).
  { rewrite (match_only_current _ st Hnd Hcur), Hoffline. unfold st, step.
    cbn [handle]. rewrite entry_activated, install_success_entry by done.
    rewrite (static_assets_without_fragment _ Hfragment index_page_is_an_asset).
    rewrite bool_decide_eq_true_2; [done|]. split; [done | apply index_page_is_an_asset]. }
  split.
  - rewrite on_fetch_run, Hget, Horigin, Hmiss. simpl. rewrite Hnet, Hmode. simpl.
    unfold delivered_by. simpl. exact Hdoc.
  - pose proof (Hall _ index_page_is_an_asset) as Hok.
    destruct (net0 "GET" (origin ++ "/index_new.html")); [by eexists | done].
Qed.


(** *** background sync: what it reads and what it leaves alone *)

Lemma doBackgroundSync_world (net : Network) (w : World) :
  ∃ tr,
    doBackgroundSync net w =
    (Ok tt,
     {| caches := CacheStorageOps.open CACHE_NAME
                    (CacheStorageOps.open CACHE_NAME (caches w));
        trace := tr |}).
Proof.
  unfold doBackgroundSync, try_catch.
  unfold mbind at 1. unfold M_bind at 1. rewrite getStoredGameData_run'. cbn [fst snd].
  unfold mbind at 1. unfold M_bind at 1.
  destruct (JS.truthy (stored_value (caches w))).
  - unfold mbind at 1. unfold M_bind at 1. rewrite syncGameProgress_run. simpl.
    rewrite checkForUpdates_run. by eexists.
  - simpl. rewrite checkForUpdates_run. by eexists.
Qed.

(** X7. A sync event never fails and never adds, changes or removes an
    entry of any cache, whatever its tag and whatever the network
    answers; with a tag other than ['background-sync'] it does nothing at
    all. *)
Theorem sync_changes_no_entry (st : CacheStorage) (net : Network) (tag : string) :
  let o := run (on_sync net tag) st in
  result_of o = Ok tt ∧
  (∀ name u, entry (caches_of o) name u = entry st name u) ∧
  (tag ≠ "background-sync" → o = (Ok tt, mkWorld st [])).
Proof.
  intros o. subst o. unfold run, on_sync.
  destruct (String.eqb tag "background-sync") eqn:Htag.
  - match goal with |- context [?m {| caches := st; trace := [] |}] =>
      assert (∃ tr, m {| caches := st; trace := [] |} =
                    (Ok tt, {| caches := CacheStorageOps.open CACHE_NAME
                                           (CacheStorageOps.open CACHE_NAME st);
                               trace := tr |})) as [tr ->]
    end.
    { unfold mbind, M_bind at 1. simpl. apply doBackgroundSync_world. }
    unfold result_of, caches_of. simpl. split; [done|]. split.
    + intros name u. by rewrite !entry_open.
    + apply String.eqb_eq in Htag. by intros ?.
  - split; [done|]. split; done.
Qed.

(** X8. Reading the stored game data never fails and changes no
    entry: it returns [null] when there is no [/game-data] entry, [null]
    with an error line when the entry is not JSON, and the parsed value
    otherwise. *)
Theorem getStoredGameData_reads_or_returns_null (st : CacheStorage) :
  let o := run getStoredGameData st in
  (∀ name u, entry (caches_of o) name u = entry st name u) ∧
  (entry st CACHE_NAME (resolve "/game-data") = None →
   result_of o = Ok VNull ∧ trace_of o = []) ∧
  (∀ r, entry st CACHE_NAME (resolve "/game-data") = Some r →
        JSON_parse (body r) = None →
        result_of o = Ok VNull ∧
        trace_of o = [ConsoleError "Service Worker: Failed to get game data"]) ∧
  (∀ r v, entry st CACHE_NAME (resolve "/game-data") = Some r →
          JSON_parse (body r) = Some v →
          result_of o = Ok v ∧ trace_of o = []).
Proof.
  intros o. subst o. unfold run. rewrite getStoredGameData_run'.
  unfold result_of, caches_of, trace_of, stored_value, getStoredGameData_trace.
  cbn [fst snd caches trace]. split; [|split; [|split]].
  - intros name u. apply entry_open.
  - by intros ->.
  - by intros r -> ->.
  - by intros r v -> ->.
Qed.

Lemma strict_eq_currentVersion (version : JSval) :
  JS.strict_eq version currentVersion = true ↔ version = VStr "1.0.0".
Proof.
  change currentVersion with (VStr "1.0.0").
  destruct version; simpl; try (split; [discriminate | discriminate]).
  rewrite String.eqb_eq. split; [by intros -> | by intros [= ->]].
Qed.

(** X9. The update check never fails and changes no entry.  It shows
    no notification exactly when no version can be read from the cached
    manifest (no manifest, a body that is not JSON, a JSON [null]) or the
    version is the string ["1.0.0"]; in particular a manifest object
    without a [version] field makes it show the update notification. *)
Theorem checkForUpdates_notifies_unless_version_is_current (st : CacheStorage) :
  let o := run checkForUpdates st in
  result_of o = Ok tt ∧
  (∀ name u, entry (caches_of o) name u = entry st name u) ∧
  (notifications (trace_of o) = [] ↔
   manifest_version st = None ∨ manifest_version st = Some (VStr "1.0.0")) ∧
  (∀ m fields,
     entry st CACHE_NAME (resolve "/manifest.json") = Some m →
     JSON_parse (body m) = Some (VObj fields) →
     JS.assoc "version" fields = None →
     notifications (trace_of o) = [update_notification]).
Proof.
  intros o. subst o. unfold run. rewrite checkForUpdates_run.
  unfold result_of, caches_of, trace_of, notifications. cbn [fst snd caches trace app].
  split; [done|]. split; [intros name u; apply entry_open|].
  unfold checkForUpdates_trace. split.
  - destruct (entry st CACHE_NAME (resolve "/manifest.json")) as [m|] eqn:Hm.
    + destruct (manifest_version st) as [version|] eqn:Hv.
      * destruct (JS.strict_eq version currentVersion) eqn:Heq.
        -- apply strict_eq_currentVersion in Heq as ->. split; [by right | done].
        -- split; [done|]. intros [?|[= ->]]; [done|].
           by rewrite (proj2 (strict_eq_currentVersion _) eq_refl) in Heq.
      * split; [by left | done].
    + unfold manifest_version. rewrite Hm. split; [by left | done].
  - intros m fields Hm Hparse Hfield. unfold manifest_version.
    rewrite Hm. simpl. rewrite Hparse. simpl. rewrite Hfield. reflexivity.
Qed.


(** *** control messages *)

Lemma on_message_get_run (ports : list nat) (st : CacheStorage) :
  run (on_message (GET_STORED_DATA ports)) st =
  post_to_first_port ports (VObj [("data", stored_value st)])
    {| caches := CacheStorageOps.open CACHE_NAME st;
       trace := ConsoleLog "Service Worker: Message received" :: getStoredGameData_trace st |}.
Proof.
  unfold run, on_message. simpl.
  unfold mbind at 1. unfold M_bind at 1. simpl.
  unfold mbind at 1. unfold M_bind at 1. by rewrite getStoredGameData_run'.
Qed.

Lemma stored_value_after_store (gameData v : JSval) (text : string) (st : CacheStorage) :
  JSON_stringify gameData = Some text →
  JSON_parse text = Some v →
  stored_value (caches_of (run (storeGameData gameData) st)) = v ∧
  getStoredGameData_trace (caches_of (run (storeGameData gameData) st)) = [].
Proof.
  intros Hs Hp. unfold stored_value, getStoredGameData_trace.
  rewrite entry_after_store. unfold game_data_response. simpl.
  rewrite Hs. simpl. by rewrite Hp.
Qed.

(** X10. The stored game data is overwritten as a whole: after two
    [STORE_GAME_DATA] messages a [GET_STORED_DATA] message is answered
    with the value of the second one, for every value that
    [JSON.stringify] and [JSON.parse] carry there and back.  Storing
    touches no entry but [/game-data] of the current cache. *)
Theorem stored_game_data_last_write_wins
    (st : CacheStorage) (v1 v2 : JSval) (text : string)
    (ports1 ports2 ports' : list nat) (p : nat) :
  JSON_stringify v2 = Some text →
  JSON_parse text = Some v2 →
  let st1 := caches_of (run (on_message (STORE_GAME_DATA v1 ports1)) st) in
  let st2 := caches_of (run (on_message (STORE_GAME_DATA v2 ports2)) st1) in
  posted (trace_of (run (on_message (GET_STORED_DATA (p :: ports'))) st2))
  = [PostMessage p (VObj [("data", v2)])] ∧
  ∀ name u, ¬ (name = CACHE_NAME ∧ identity u = identity (resolve "/game-data")) →
            entry st2 name u = entry st name u.
Proof.
  intros Hs Hp st1 st2. subst st1 st2. rewrite !on_message_store. split.
  - rewrite on_message_get_run.
    destruct (stored_value_after_store v2 v2 text
                (caches_of (run (storeGameData v1) st)) Hs Hp) as [-> ->].
    reflexivity.
  - intros name u Hnot. unfold caches_of, run. rewrite !storeGameData_run. simpl.
    destruct (decide (name = CACHE_NAME)) as [->|Hname].
    + rewrite entry_put by (rewrite lookup_cache_open; destruct (CacheStorageOps.lookup_cache _ _);
                             [by eexists | rewrite String.eqb_refl; by eexists]).
      rewrite decide_False by (intros Heq; by apply Hnot).
      rewrite entry_open, entry_put by apply has_open.
      rewrite decide_False by (intros Heq; by apply Hnot). apply entry_open.
    + by rewrite entry_update_other, entry_open, entry_update_other, entry_open.
Qed.

(** X11. A [STORE_GAME_DATA] message without a [gameData] field stores
    a response with an empty body, since [JSON.stringify(undefined)] is
    [undefined]; as the empty text is not JSON, a later
    [GET_STORED_DATA] is answered with [{ data: null }] after an error
    line. *)
Theorem store_without_game_data_reads_back_null
    (st : CacheStorage) (ports ports' : list nat) (p : nat) :
  JSON_stringify VUndefined = None →
  JSON_parse EmptyString = None →
  let stored :=
    caches_of (run (on_message {| data := VObj [("type", VStr "STORE_GAME_DATA")];
                                  ports := ports |}) st) in
  (body <$> entry stored CACHE_NAME (resolve "/game-data")) = Some EmptyString ∧
  trace_of (run (on_message (GET_STORED_DATA (p :: ports'))) stored)
  = [ConsoleLog "Service Worker: Message received";
     ConsoleError "Service Worker: Failed to get game data";
     PostMessage p (VObj [("data", VNull)])].
Proof.
  intros Hs Hp stored.
  assert (Hstored : stored = caches_of (run (storeGameData VUndefined) st)) by reflexivity.
  assert (Hentry : entry stored CACHE_NAME (resolve "/game-data")
                   = Some (new_Response EmptyString [("Content-Type", "application/json")])).
  { rewrite Hstored, entry_after_store. unfold game_data_response. by rewrite Hs. }
  split; [by rewrite Hentry|].
  rewrite on_message_get_run. unfold stored_value, getStoredGameData_trace.
  rewrite Hentry. simpl. by rewrite Hp.
Qed.

(** X12. A message without data, without a truthy [type], or with a
    [type] that is none of the four known strings is ignored: the handler
    does not fail, leaves the storage as it is, posts no reply and does
    not call [skipWaiting]. *)
Theorem unknown_messages_are_ignored (st : CacheStorage) (event : MessageEvent) :
  JS.truthy (message_type event) = false ∨
  (JS.strict_eq (message_type event) (VStr "SKIP_WAITING") = false ∧
   JS.strict_eq (message_type event) (VStr "GET_VERSION") = false ∧
   JS.strict_eq (message_type event) (VStr "STORE_GAME_DATA") = false ∧
   JS.strict_eq (message_type event) (VStr "GET_STORED_DATA") = false) →
  let o := run (on_message event) st in
  result_of o = Ok tt ∧
  caches_of o = st ∧
  posted (trace_of o) = [] ∧
  skip_waiting_calls (trace_of o) = [].
Proof.
  intros Hunknown o. subst o. unfold run, on_message.
  unfold mbind at 1. unfold M_bind at 1. simpl.
  destruct (JS.truthy (message_type event)) eqn:Ht.
  - destruct Hunknown as [?|(-> & -> & -> & ->)]; [done|]. by repeat split.
  - by repeat split.
Qed.

(** X13. [GET_VERSION] is answered on the first port of the message
    with [{ version: CACHE_NAME }], the whole cache name and not the
    ["1.0.0"] that the update check compares with, and leaves the
    storage as it is.  A [GET_VERSION] or [GET_STORED_DATA] message that
    carries no port makes the handler fail without posting anything. *)
Theorem version_reply_needs_a_port (st : CacheStorage) (event : MessageEvent) :
  message_type event = VStr "GET_VERSION" →
  (∀ p rest, ports event = p :: rest →
     run (on_message event) st =
     (Ok tt,
      mkWorld st [ConsoleLog "Service Worker: Message received";
                  PostMessage p (VObj [("version", VStr "blood-eagle-v1.0.0")])])) ∧
  (ports event = [] →
     (∃ e, result_of (run (on_message event) st) = Throw e) ∧
     posted (trace_of (run (on_message event) st)) = [] ∧
     caches_of (run (on_message event) st) = st) ∧
  (∃ e, result_of (run (on_message (GET_STORED_DATA [])) st) = Throw e) ∧
  posted (trace_of (run (on_message (GET_STORED_DATA [])) st)) = [] ∧
  JS.strict_eq (VStr CACHE_NAME) currentVersion = false.
Proof.
  intros Htype.
  assert (Hrun : run (on_message event) st =
                 post_to_first_port (ports event) (VObj [("version", VStr CACHE_NAME)])
                   (mkWorld st [ConsoleLog "Service Worker: Message received"])).
  { unfold run, on_message. unfold mbind at 1. unfold M_bind at 1. simpl.
    by rewrite Htype. }
  rewrite Hrun, on_message_get_run. split; [|split; [|split; [|split]]].
  - by intros p rest ->.
  - intros ->. split; [by eexists|]. by split.
  - by eexists.
  - simpl. unfold posted, getStoredGameData_trace.
    destruct (entry st CACHE_NAME (resolve "/game-data")) as [r|]; [|done].
    by destruct (JSON_parse (body r)).
  - reflexivity.
Qed.


(** *** the cleanup pass as a whole *)

Lemma too_old_later (now1 now2 : Z) (r : Response) :
  now1 ≤ now2 → too_old now1 r = true → too_old now2 r = true.
Proof.
  unfold too_old. destruct (date_time r) as [t|]; [|done].
  rewrite !Z.ltb_lt. lia.
Qed.

Lemma survivor_twice (now1 now2 : Z) (found : option Response) :
  now1 ≤ now2 → survivor now2 (survivor now1 found) = survivor now2 found.
Proof.
  intros Hle. destruct found as [r|]; [|done]. simpl.
  destruct (too_old now1 r) eqn:Hold; [|done]. simpl.
  by rewrite (too_old_later now1 now2 r Hle Hold).
Qed.

Lemma entry_swept (now : Z) (st : CacheStorage) (name u : string) :
  entry (caches_of (run (cleanupOldData now) st)) name u =
  if String.eqb name CACHE_NAME then survivor now (entry st CACHE_NAME u)
  else entry st name u.
Proof. by destruct (cleanupOldData_spec now st) as [_ ->]. Qed.

(** X14. A cleanup pass followed by a pass at the same or a later clock
    reading leaves every cache entry as the later pass alone would; so a
    second pass at the same reading changes nothing. *)
Theorem cleanup_passes_compose (now1 now2 : Z) (st : CacheStorage) :
  now1 ≤ now2 →
  let sweep now st := caches_of (run (cleanupOldData now) st) in
  (∀ name u, entry (sweep now2 (sweep now1 st)) name u = entry (sweep now2 st) name u) ∧
  (∀ name u, entry (sweep now1 (sweep now1 st)) name u = entry (sweep now1 st) name u).
Proof.
  intros Hle sweep. subst sweep. cbn beta.
  split; intros name u; rewrite !entry_swept, !String.eqb_refl;
    (destruct (String.eqb name CACHE_NAME); [|done]);
    apply survivor_twice; [done | lia].
Qed.

(** X15. A cleanup pass never fails, creates or changes no entry, and
    touches no cache but the current one: an entry found after the pass
    was there before with the same response, and the entries of the other
    caches are all still there. *)
Theorem cleanup_only_removes_from_current_cache (now : Z) (st : CacheStorage) :
  let o := run (cleanupOldData now) st in
  result_of o = Ok tt ∧
  (∀ name u r, entry (caches_of o) name u = Some r → entry st name u = Some r) ∧
  (∀ name u, name ≠ CACHE_NAME → entry (caches_of o) name u = entry st name u).
Proof.
  intros o. subst o. split; [apply cleanupOldData_spec|]. split.
  - intros name u r. rewrite entry_swept.
    destruct (String.eqb name CACHE_NAME) eqn:Hn; [|done].
    apply String.eqb_eq in Hn as ->.
    destruct (entry st CACHE_NAME u) as [r'|]; [|done]. simpl.
    by destruct (too_old now r').
  - intros name u Hn. rewrite entry_swept. apply String.eqb_neq in Hn. by rewrite Hn.
Qed.

(** X16. An entry whose [date] header is present, not empty and not a
    date ([new Date] gives an invalid date) is never deleted by a cleanup
    pass, whatever the clock reading. *)
Theorem entry_with_invalid_date_is_never_swept
    (now : Z) (st : CacheStorage) (u text : string) (r : Response) :
  entry st CACHE_NAME u = Some r →
  headers_get (headers r) "date" = Some text →
  text ≠ EmptyString →
  Date_parse text = None →
  entry (caches_of (run (cleanupOldData now) st)) CACHE_NAME u = Some r.
Proof.
  intros Hentry Hdate Htext Hparse. rewrite entry_swept, String.eqb_refl, Hentry. simpl.
  unfold too_old, date_time. rewrite Hdate.
  apply String.eqb_neq in Htext. by rewrite Htext, Hparse.
Qed.

(** *** notifications *)

(** X18. A click on a notification always closes it first and opens at
    most one window: the game page for the action ['explore'], nothing for
    ['close'], and the main page ['/'] for every other action, which
    includes a click outside the buttons and the ['update'] button of the
    update notification.  The two buttons of a push notification are
    ['explore'] and ['close']. *)
Theorem notification_click_opens_at_most_one_window (clicked : string) :
  (∃ rest, Notifications.on_notificationclick clicked
           = Notifications.ClickLog "Service Worker: Notification clicked"
             :: Notifications.CloseNotification :: rest ∧
           Notifications.opened (Notifications.on_notificationclick clicked)
           = Notifications.opened rest) ∧
  Notifications.opened (Notifications.on_notificationclick clicked)
  = (if String.eqb clicked "explore" then ["/blood_eagle_game.html"]
     else if String.eqb clicked "close" then []
     else ["/"]) ∧
  (∀ title text icon actions label,
     update_notification = ShowNotification title text icon actions →
     (clicked, label) ∈ actions →
     Notifications.opened (Notifications.on_notificationclick clicked) = ["/"]) ∧
  (∀ now pushed,
     Notifications.action <$> Notifications.actions (Notifications.push_options now pushed)
     = ["explore"; "close"]).
Proof.
  unfold Notifications.on_notificationclick. split; [|split; [|split]].
  - eexists. split; reflexivity.
  - simpl. destruct (String.eqb clicked "explore"); [done|].
    by destruct (String.eqb clicked "close").
  - intros title text icon actions label [= <- <- <- <-].
    intros [= -> ->]%list_elem_of_singleton. reflexivity.
  - reflexivity.
Qed.


(** *** the storage of a serving worker *)

(** X19. From activation on, whatever events follow, the storage holds
    at most one cache, and it is the one called [CACHE_NAME]; so what
    [caches.match] finds is what the current cache holds. *)
Theorem serving_storage_is_the_current_cache (st : CacheStorage) :
  serving st →
  (st = [] ∨ ∃ c, st = [(CACHE_NAME, c)]) ∧
  ∀ u, CacheStorageOps.match_ u st = entry st CACHE_NAME u.
Proof.
  intros [Hnd Hcur]%serving_inv. unfold distinct_names in Hnd. split.
  - destruct st as [|[n c] st]; [by left|]. right. exists c.
    assert (n = CACHE_NAME) as -> by apply Hcur, list_elem_of_here.
    destruct st as [|[n' c'] st]; [done|]. exfalso.
    assert (n' = CACHE_NAME) as ->.
    { apply Hcur. unfold CacheStorageOps.keys. simpl.
      apply list_elem_of_further, list_elem_of_here. }
    unfold CacheStorageOps.keys in Hnd. simpl in Hnd.
    apply NoDup_cons in Hnd as [Hn _]. apply Hn, list_elem_of_here.
  - intros u. by apply match_only_current.
Qed.

End ServiceWorker.

(** ** Runs on the concrete platform *)

Local Abbreviation demo_step :=
  (step Demo.origin Demo.base Demo.JSON_parse Demo.JSON_stringify Demo.Date_parse
        Demo.sync_supported).
Local Abbreviation demo_steps :=
  (steps Demo.origin Demo.base Demo.JSON_parse Demo.JSON_stringify Demo.Date_parse
         Demo.sync_supported).
Local Abbreviation demo_serving :=
  (serving Demo.origin Demo.base Demo.JSON_parse Demo.JSON_stringify Demo.Date_parse
           Demo.sync_supported).
Local Abbreviation demo_serving_on_platform :=
  (serving_on_platform Demo.origin Demo.base Demo.JSON_parse Demo.JSON_stringify
                       Demo.Date_parse Demo.sync_supported).
Local Abbreviation demo_fetch := (on_fetch Demo.origin Demo.base).
Local Abbreviation demo_resolve := (resolve Demo.origin Demo.base).
Local Abbreviation demo_get := (getStoredGameData Demo.origin Demo.base Demo.JSON_parse).

(** The storage after a successful install and activation, and after an
    install during which the manifest could not be fetched. *)
Local Abbreviation installed :=
  (demo_step 0 Activate (demo_step 0 (Install (Demo.online "1.0.0")) [])).
Local Abbreviation installed_partially :=
  (demo_step 0 Activate (demo_step 0 (Install Demo.manifest_unreachable) [])).

Local Abbreviation home := (Demo.document basic "<html></html>").

Lemma activated_after_install_serving (net : Network) :
  demo_serving (demo_step 0 Activate (demo_step 0 (Install net) [])).
Proof.
  apply serving_activated, installing_step; [|reflexivity].
  apply installing_fresh. split; [constructor | reflexivity].
Qed.

Lemma activated_after_install_serving_on_platform (net : Network) :
  demo_serving_on_platform (demo_step 0 Activate (demo_step 0 (Install net) [])).
Proof.
  apply serving_on_platform_activated, installing_step; [|reflexivity].
  apply installing_fresh. split; [constructor | reflexivity].
Qed.

(** The demo server types its responses as the platform does. *)
Lemma online_basic_is_same_origin (version : string) :
  basic_is_same_origin Demo.origin (Demo.online version).
Proof.
  intros meth u r. unfold Demo.online, same_origin.
  destruct (String.eqb u (Demo.origin ++ "/manifest.json")) eqn:Hm.
  - apply String.eqb_eq in Hm as ->. intros _ _. vm_compute. reflexivity.
  - destruct (JSString.startsWith (without_fragment u) (Demo.origin ++ "/")); [done|].
    intros [= <-] Hbasic. discriminate Hbasic.
Qed.

(** C1 on the installed storage: the game page, requested with a
    fragment, is served from the cache while the network is down. *)
Lemma cache_hit_served_without_network_witness :
  let level := {| method := "GET";
                  url := Demo.origin ++ "/blood_eagle_game.html#level2";
                  mode := "navigate" |} in
  (without_fragment Demo.origin = Demo.origin ∧
   demo_serving_on_platform installed ∧
   method level = "GET" ∧
   entry installed CACHE_NAME (url level) = Some home) ∧
  result_of (run (demo_fetch Demo.offline level) installed)
    = Ok (RespondWith (Some home)) ∧
  trace_of (run (demo_fetch Demo.offline level) installed) = [].
Proof.
  intros level.
  assert (Hs : demo_serving_on_platform installed)
    by apply activated_after_install_serving_on_platform.
  assert (He : entry installed CACHE_NAME (url level) = Some home)
    by (vm_compute; reflexivity).
  split; [by repeat split|].
  destruct (cache_hit_served_without_network
              Demo.origin Demo.base Demo.JSON_parse Demo.JSON_stringify Demo.Date_parse
              Demo.sync_supported installed Demo.offline level home
              eq_refl Hs eq_refl He) as (Hres & _ & Htrace & _).
  by split.
Defined.

(** C3 on a storage that still holds the cache of version 0.9.0. *)
Lemma activate_deletes_other_versions_witness :
  let st := [("blood-eagle-v0.9.0", {[identity "https://blood-eagle.example/" := home]});
             (CACHE_NAME, ∅)] in
  "blood-eagle-v0.9.0" ≠ CACHE_NAME ∧
  CacheStorageOps.lookup_cache "blood-eagle-v0.9.0" (caches_of (run on_activate st)) = None.
Proof.
  intros st.
  assert (Hne : "blood-eagle-v0.9.0" ≠ CACHE_NAME) by (intros H; discriminate H).
  split; [exact Hne|].
  destruct (activate_deletes_other_versions st) as (_ & Hgone & _).
  by apply Hgone.
Defined.

(** C8 for a same-origin request that is not cached yet. *)
Lemma fetch_miss_populates_cache_witness :
  (method Demo.scores = "GET" ∧
   spec_origin_set Demo.origin (url Demo.scores) = true ∧
   CacheStorageOps.match_ (url Demo.scores) installed = None ∧
   Demo.online "1.0.0" "GET" (url Demo.scores) = Some home ∧
   status home = 200 ∧ rtype home = basic) ∧
  let o := run (demo_fetch (Demo.online "1.0.0") Demo.scores) installed in
  result_of o = Ok (RespondWith (Some home)) ∧
  entry (caches_of o) CACHE_NAME (url Demo.scores) = Some home.
Proof.
  assert (Horigin : spec_origin_set Demo.origin (url Demo.scores) = true)
    by (vm_compute; reflexivity).
  assert (Hmiss : CacheStorageOps.match_ (url Demo.scores) installed = None)
    by (vm_compute; reflexivity).
  assert (Hnet : Demo.online "1.0.0" "GET" (url Demo.scores) = Some home)
    by (vm_compute; reflexivity).
  split; [by repeat split|].
  destruct (fetch_miss_populates_cache
              Demo.origin Demo.base Demo.JSON_parse Demo.JSON_stringify Demo.Date_parse
              Demo.sync_supported installed (Demo.online "1.0.0") Demo.scores)
    as (Hset & Hstore & _).
  destruct (Hstore home eq_refl (Hset Horigin) Hmiss Hnet eq_refl eq_refl)
    as (Hres & _ & Hentry & _).
  by split.
Defined.

(** C9 for a progress record, with the reply port 7. *)
Lemma game_data_round_trip_witness :
  (Demo.JSON_stringify Demo.progress = Some (Demo.JSON_text Demo.progress) ∧
   Demo.JSON_parse (Demo.JSON_text Demo.progress) = Some Demo.progress) ∧
  let stored := demo_step 0 (Message (STORE_GAME_DATA Demo.progress [])) [] in
  posted (trace_of (run (on_message Demo.origin Demo.base Demo.JSON_parse
                                    Demo.JSON_stringify (GET_STORED_DATA [7%nat]))
                        stored))
  = [PostMessage 7 (VObj [("data", Demo.progress)])].
Proof.
  assert (Hparse : Demo.JSON_parse (Demo.JSON_text Demo.progress) = Some Demo.progress)
    by (vm_compute; reflexivity).
  split; [by split|].
  exact (proj2 (game_data_round_trip
                  Demo.origin Demo.base Demo.JSON_parse Demo.JSON_stringify
                  [] Demo.progress (Demo.JSON_text Demo.progress) [] [] 7%nat
                  eq_refl Hparse)).
Defined.

(** The storage after the progress record was stored at 1700000000000. *)
Local Abbreviation progress_stored :=
  (demo_steps [(1700000000000, Message (STORE_GAME_DATA Demo.progress []))] []).

(** C10, the claim fails: a record without a [date] header is kept by
    the cleanup pass that examines it seven days after the epoch. *)
Lemma undated_entry_is_kept_seven_days_after_the_epoch :
  let stored := demo_steps [(0, Message (STORE_GAME_DATA Demo.progress []))] [] in
  headers_get (headers (game_data_response Demo.JSON_stringify Demo.progress)) "date" = None ∧
  entry (demo_steps [(604800000, Timer)] stored) CACHE_NAME (demo_resolve "/game-data")
  = Some (game_data_response Demo.JSON_stringify Demo.progress).
Proof. vm_compute. by split. Qed.

(** C10, amended, for the stored progress record and the pass of the
    next day. *)
Lemma undated_entries_are_swept_witness :
  (entry progress_stored CACHE_NAME (demo_resolve "/game-data")
     = Some (game_data_response Demo.JSON_stringify Demo.progress) ∧
   headers_get (headers (game_data_response Demo.JSON_stringify Demo.progress)) "date" = None) ∧
  entry (caches_of (run (cleanupOldData Demo.Date_parse 1700086400000) progress_stored))
        CACHE_NAME (demo_resolve "/game-data") = None.
Proof.
  assert (He : entry progress_stored CACHE_NAME (demo_resolve "/game-data")
               = Some (game_data_response Demo.JSON_stringify Demo.progress))
    by (vm_compute; reflexivity).
  split; [by split|].
  destruct (undated_entries_are_swept
              Demo.origin Demo.base Demo.JSON_stringify Demo.Date_parse)
    as (_ & Hswept & _).
  rewrite (Hswept 1700086400000 _ _ _ He (or_introl eq_refl)). reflexivity.
Defined.

(** C4, the claim fails: the progress record stored at 1700000000000 is
    read back before the cleanup pass of the next day and is gone after
    it. *)
Lemma sweep_deletes_stored_progress :
  result_of (run demo_get progress_stored) = Ok Demo.progress ∧
  let swept := demo_steps [(1700086400000, Timer)] progress_stored in
  entry swept CACHE_NAME (demo_resolve "/game-data") = None ∧
  result_of (run demo_get swept) = Ok VNull.
Proof. vm_compute. by repeat split. Qed.

(** C5, the claim fails: a record written at time [T] is absent after a
    cleanup pass at [T] + 6 days 23 hours. *)
Lemma progress_stored_at_T_is_swept_within_seven_days :
  let T := 1700000000000 in
  let stored := demo_steps [(T, Message (STORE_GAME_DATA Demo.progress []))] [] in
  is_Some (entry stored CACHE_NAME (demo_resolve "/game-data")) ∧
  entry (demo_steps [(T + (6 * 24 + 23) * 60 * 60 * 1000, Timer)] stored)
        CACHE_NAME (demo_resolve "/game-data") = None.
Proof. vm_compute. split; [by eexists | reflexivity]. Qed.

(** C5, amended, for the game page cached at install. *)
Lemma sweep_boundary_by_date_header_witness :
  (entry installed CACHE_NAME (url Demo.game_page) = Some home ∧
   date_time Demo.Date_parse home = Some 1700000000000) ∧
  entry (caches_of (run (cleanupOldData Demo.Date_parse
                           (1700000000000 + (6 * 24 + 23) * 60 * 60 * 1000)) installed))
        CACHE_NAME (url Demo.game_page) = Some home ∧
  entry (caches_of (run (cleanupOldData Demo.Date_parse
                           (1700000000000 + (7 * 24 + 1) * 60 * 60 * 1000)) installed))
        CACHE_NAME (url Demo.game_page) = None.
Proof.
  assert (He : entry installed CACHE_NAME (url Demo.game_page) = Some home)
    by (vm_compute; reflexivity).
  assert (Hd : date_time Demo.Date_parse home = Some 1700000000000)
    by (vm_compute; reflexivity).
  split; [by split|].
  destruct (sweep_boundary_by_date_header Demo.Date_parse installed
              (url Demo.game_page) home 1700000000000 He Hd)
    as (_ & _ & Hkept & Hgone).
  by split.
Defined.

(** C6, the claim fails: after an install during which one asset could
    not be fetched nothing is cached, the offline document included, and
    a navigation whose fetch fails is answered with a failed request. *)
Lemma offline_navigation_without_cached_fallback_fails :
  demo_serving installed_partially ∧
  method Demo.game_page = "GET" ∧
  mode Demo.game_page = "navigate" ∧
  CacheStorageOps.match_ (url Demo.game_page) installed_partially = None ∧
  Demo.offline "GET" (url Demo.game_page) = None ∧
  result_of (run (demo_fetch Demo.offline Demo.game_page) installed_partially)
    = Ok (RespondWith None) ∧
  delivered_by Demo.offline Demo.game_page
    (run (demo_fetch Demo.offline Demo.game_page) installed_partially) = None.
Proof.
  split; [apply activated_after_install_serving|].
  vm_compute. by repeat split.
Qed.

(** C6, amended, for a navigation to a page that is not cached. *)
Lemma offline_miss_falls_back_to_cached_document_witness :
  (method Demo.other_page = "GET" ∧
   CacheStorageOps.match_ (url Demo.other_page) installed = None ∧
   Demo.offline "GET" (url Demo.other_page) = None ∧
   mode Demo.other_page = "navigate" ∧
   intercepted_origin Demo.origin (url Demo.other_page) = true) ∧
  delivered_by Demo.offline Demo.other_page
    (run (demo_fetch Demo.offline Demo.other_page) installed)
  = CacheStorageOps.match_ (demo_resolve OFFLINE_URL) installed ∧
  CacheStorageOps.match_ (demo_resolve OFFLINE_URL) installed = Some home.
Proof.
  assert (Hmiss : CacheStorageOps.match_ (url Demo.other_page) installed = None)
    by (vm_compute; reflexivity).
  assert (Horigin : intercepted_origin Demo.origin (url Demo.other_page) = true)
    by (vm_compute; reflexivity).
  split; [by repeat split|].
  destruct (offline_miss_falls_back_to_cached_document
              Demo.origin Demo.base installed Demo.offline Demo.other_page
              eq_refl Hmiss eq_refl) as [Hnav _].
  destruct (Hnav eq_refl Horigin) as [_ Hdelivered].
  split; [exact Hdelivered | vm_compute; reflexivity].
Defined.

(** C2, the claim fails: with the manifest unreachable the promise handed
    to [waitUntil] fulfils, so the platform is told the install
    succeeded. *)
Lemma install_with_unreachable_manifest_is_not_reported :
  Demo.manifest_unreachable "GET" (demo_resolve "/manifest.json") = None ∧
  result_of (run (on_install Demo.origin Demo.base Demo.manifest_unreachable) []) = Ok tt ∧
  ¬ reports_failure (run (on_install Demo.origin Demo.base Demo.manifest_unreachable) []).
Proof.
  assert (Hres : result_of (run (on_install Demo.origin Demo.base
                                            Demo.manifest_unreachable) []) = Ok tt)
    by (vm_compute; reflexivity).
  split; [vm_compute; reflexivity|]. split; [exact Hres|].
  intros [e He]. rewrite Hres in He. discriminate He.
Qed.

(** C2, amended, for an install during which the manifest is unreachable. *)
Lemma failed_install_is_logged_and_writes_nothing_witness :
  (demo_resolve "/manifest.json" ∈ demo_resolve <$> STATIC_ASSETS ∧
   Demo.manifest_unreachable "GET" (demo_resolve "/manifest.json") = None) ∧
  let o := run (on_install Demo.origin Demo.base Demo.manifest_unreachable) [] in
  result_of o = Ok tt ∧
  skip_waiting_calls (trace_of o) = [] ∧
  CacheStorageOps.lookup_cache CACHE_NAME (caches_of o) = Some ∅.
Proof.
  assert (Hin : demo_resolve "/manifest.json" ∈ demo_resolve <$> STATIC_ASSETS).
  { unfold STATIC_ASSETS. rewrite !fmap_cons.
    do 3 apply list_elem_of_further. apply list_elem_of_here. }
  assert (Hfail : Demo.manifest_unreachable "GET" (demo_resolve "/manifest.json") = None)
    by (vm_compute; reflexivity).
  split; [by split|].
  destruct (failed_install_is_logged_and_writes_nothing
              Demo.origin Demo.base [] Demo.manifest_unreachable
              (demo_resolve "/manifest.json") Hin Hfail)
    as (Hres & _ & _ & Hskip & _ & _ & Hempty).
  split; [exact Hres|]. split; [exact Hskip | by apply Hempty].
Defined.

(** C7, the claim fails: the worker installed version 1.0.0 and the
    server has moved on to 2.0.0 since; a sync cycle does not request the
    manifest and shows no notification. *)
Lemma sync_cycle_does_not_fetch_the_manifest :
  Demo.online "2.0.0" "GET" (demo_resolve "/manifest.json") = Some (Demo.manifest "2.0.0") ∧
  let o := run (doBackgroundSync Demo.origin Demo.base Demo.JSON_parse
                                 Demo.JSON_stringify Demo.sync_supported
                                 (Demo.online "2.0.0")) installed in
  network_calls (trace_of o) = [] ∧
  notifications (trace_of o) = [].
Proof. vm_compute. by repeat split. Qed.

(** C7, amended, on a worker whose cached manifest announces version
    2.0.0: one update notification in the cycle. *)
Lemma sync_cycle_notifies_once_on_version_mismatch_witness :
  let st := demo_step 0 Activate (demo_step 0 (Install (Demo.online "2.0.0")) []) in
  manifest_version Demo.origin Demo.base Demo.JSON_parse st = Some (VStr "2.0.0") ∧
  notifications
    (trace_of (run (doBackgroundSync Demo.origin Demo.base Demo.JSON_parse
                                     Demo.JSON_stringify Demo.sync_supported
                                     (Demo.online "2.0.0")) st))
  = [update_notification].
Proof.
  intros st.
  assert (Hv : manifest_version Demo.origin Demo.base Demo.JSON_parse st
               = Some (VStr "2.0.0")) by (vm_compute; reflexivity).
  split; [exact Hv|].
  destruct (sync_cycle_notifies_once_on_version_mismatch
              Demo.origin Demo.base Demo.JSON_parse Demo.JSON_stringify
              Demo.sync_supported st (Demo.online "2.0.0")) as (_ & Hn & _).
  rewrite Hn, Hv. reflexivity.
Defined.

(** ** The further properties on the concrete platform *)

Local Abbreviation demo_message :=
  (on_message Demo.origin Demo.base Demo.JSON_parse Demo.JSON_stringify).
Local Abbreviation demo_install := (on_install Demo.origin Demo.base).
Local Abbreviation demo_sweep :=
  (λ now st, caches_of (run (cleanupOldData Demo.Date_parse now) st)).

(** X1 for an install from an empty storage with every server reachable:
    the manifest is stored as served. *)
Lemma install_stores_every_asset_witness :
  (without_fragment Demo.origin = Demo.origin ∧
   Forall (λ u, Platform.addable (Demo.online "1.0.0" "GET" u) = true)
          (demo_resolve <$> STATIC_ASSETS)) ∧
  entry (caches_of (run (demo_install (Demo.online "1.0.0")) []))
        CACHE_NAME (demo_resolve "/manifest.json")
  = Some (Demo.manifest "1.0.0") ∧
  skip_waiting_calls (trace_of (run (demo_install (Demo.online "1.0.0")) []))
  = [SkipWaiting].
Proof.
  assert (Hall : Forall (λ u, Platform.addable (Demo.online "1.0.0" "GET" u) = true)
                        (demo_resolve <$> STATIC_ASSETS))
    by (unfold STATIC_ASSETS; rewrite !fmap_cons; repeat constructor).
  assert (Hin : demo_resolve "/manifest.json" ∈ demo_resolve <$> STATIC_ASSETS).
  { unfold STATIC_ASSETS. rewrite !fmap_cons.
    do 3 apply list_elem_of_further. apply list_elem_of_here. }
  split; [by split|].
  destruct (install_stores_every_asset
              Demo.origin Demo.base [] (Demo.online "1.0.0")
              eq_refl (proj1 (Forall_forall _ _) Hall))
    as (_ & Hstored & _ & _ & _ & Hskip & _).
  split; [|exact Hskip].
  rewrite (Hstored _ Hin). vm_compute. reflexivity.
Defined.

(** X4 for the POST of a progress record: the handler stays out of it. *)
Lemma fetch_leaves_other_requests_alone_witness :
  let upload := {| method := "POST"; url := Demo.origin ++ "/api/sync-progress";
                   mode := "cors" |} in
  method upload ≠ "GET" ∧
  run (demo_fetch (Demo.online "1.0.0") upload) installed
  = (Ok NotIntercepted, mkWorld installed []).
Proof.
  intros upload.
  assert (Hpost : method upload ≠ "GET") by (intros H; discriminate H).
  split; [exact Hpost|].
  exact (proj1 (fetch_leaves_other_requests_alone
                  Demo.origin Demo.base installed (Demo.online "1.0.0") upload
                  (or_introl Hpost))).
Defined.

(** X5 for a stylesheet of another origin: the [cors] response reaches
    the page and is not stored. *)
Lemma fetch_passes_network_answers_on_witness :
  let sheet := {| method := "GET"; url := "https://fonts.googleapis.com/css2?family=Cairo";
                  mode := "no-cors" |} in
  let css := Demo.document cors "/* css */" in
  (CacheStorageOps.match_ (url sheet) installed = None ∧
   Demo.online "1.0.0" "GET" (url sheet) = Some css ∧
   ¬ (status css = 200 ∧ rtype css = basic)) ∧
  delivered_by (Demo.online "1.0.0") sheet
               (run (demo_fetch (Demo.online "1.0.0") sheet) installed) = Some css ∧
  caches_of (run (demo_fetch (Demo.online "1.0.0") sheet) installed) = installed.
Proof.
  intros sheet css.
  assert (Hmiss : CacheStorageOps.match_ (url sheet) installed = None)
    by (vm_compute; reflexivity).
  assert (Hnet : Demo.online "1.0.0" "GET" (url sheet) = Some css)
    by (vm_compute; reflexivity).
  assert (Hcors : ¬ (status css = 200 ∧ rtype css = basic))
    by (intros [_ H]; discriminate H).
  split; [by repeat split|].
  destruct (fetch_passes_network_answers_on
              Demo.origin Demo.base installed (Demo.online "1.0.0") sheet)
    as [_ Hpass].
  destruct (Hpass css Hmiss Hnet) as [Hdelivered Hkept].
  split; [exact Hdelivered | exact (Hkept Hcors)].
Defined.

(** X6 for the scores file: fetched once while online, then served,
    also when requested with a fragment, while the network is down. *)
Lemma repeated_request_is_served_from_cache_witness :
  let again := {| method := "GET"; url := url Demo.scores ++ "#top"; mode := "cors" |} in
  (demo_serving installed ∧
   intercepted_origin Demo.origin (url Demo.scores) = true ∧
   entry installed CACHE_NAME (url Demo.scores) = None ∧
   Demo.online "1.0.0" "GET" (url Demo.scores) = Some home ∧
   intercepted_origin Demo.origin (url again) = true ∧
   without_fragment (url again) = without_fragment (url Demo.scores)) ∧
  let st' := demo_step 0 (Fetch (Demo.online "1.0.0") Demo.scores) installed in
  run (demo_fetch Demo.offline again) st'
  = (Ok (RespondWith (Some home)), mkWorld st' []).
Proof.
  intros again.
  assert (Hs : demo_serving installed) by apply activated_after_install_serving.
  assert (Horigin : intercepted_origin Demo.origin (url Demo.scores) = true)
    by (vm_compute; reflexivity).
  assert (Hmiss : entry installed CACHE_NAME (url Demo.scores) = None)
    by (vm_compute; reflexivity).
  assert (Hnet : Demo.online "1.0.0" "GET" (url Demo.scores) = Some home)
    by (vm_compute; reflexivity).
  assert (Horigin' : intercepted_origin Demo.origin (url again) = true)
    by (vm_compute; reflexivity).
  assert (Hsame : without_fragment (url again) = without_fragment (url Demo.scores))
    by (vm_compute; reflexivity).
  split; [by repeat split|].
  exact (repeated_request_is_served_from_cache
           Demo.origin Demo.base Demo.JSON_parse Demo.JSON_stringify Demo.Date_parse
           Demo.sync_supported installed (Demo.online "1.0.0") Demo.scores home
           Hs eq_refl Horigin Hmiss Hnet eq_refl eq_refl 0 Demo.offline again
           eq_refl Horigin' Hsame).
Defined.

(** X8 on the storage that holds the progress record. *)
Lemma getStoredGameData_reads_or_returns_null_witness :
  (entry progress_stored CACHE_NAME (demo_resolve "/game-data")
   = Some (game_data_response Demo.JSON_stringify Demo.progress) ∧
   Demo.JSON_parse (body (game_data_response Demo.JSON_stringify Demo.progress))
   = Some Demo.progress) ∧
  result_of (run demo_get progress_stored) = Ok Demo.progress ∧
  trace_of (run demo_get progress_stored) = [].
Proof.
  assert (He : entry progress_stored CACHE_NAME (demo_resolve "/game-data")
               = Some (game_data_response Demo.JSON_stringify Demo.progress))
    by (vm_compute; reflexivity).
  assert (Hparse : Demo.JSON_parse
                     (body (game_data_response Demo.JSON_stringify Demo.progress))
                   = Some Demo.progress)
    by (vm_compute; reflexivity).
  split; [by split|].
  destruct (getStoredGameData_reads_or_returns_null
              Demo.origin Demo.base Demo.JSON_parse progress_stored)
    as (_ & _ & _ & Hread).
  exact (Hread _ _ He Hparse).
Defined.

(** X9 for a cached manifest that has a name and no version. *)
Lemma checkForUpdates_notifies_unless_version_is_current_witness :
  let m := {| status := 200; rtype := basic; headers := [];
              body := Demo.JSON_text (VObj [("name", VStr "Blood Eagle")]) |} in
  let st := [(CACHE_NAME, {[ identity (demo_resolve "/manifest.json") := m ]})] in
  (entry st CACHE_NAME (demo_resolve "/manifest.json") = Some m ∧
   Demo.JSON_parse (body m) = Some (VObj [("name", VStr "Blood Eagle")])) ∧
  notifications (trace_of (run (checkForUpdates Demo.origin Demo.base Demo.JSON_parse) st))
  = [update_notification].
Proof.
  intros m st.
  assert (He : entry st CACHE_NAME (demo_resolve "/manifest.json") = Some m)
    by (vm_compute; reflexivity).
  assert (Hparse : Demo.JSON_parse (body m) = Some (VObj [("name", VStr "Blood Eagle")]))
    by (vm_compute; reflexivity).
  split; [by split|].
  destruct (checkForUpdates_notifies_unless_version_is_current
              Demo.origin Demo.base Demo.JSON_parse st)
    as (_ & _ & _ & Hshown).
  exact (Hshown _ _ He Hparse eq_refl).
Defined.

(** X10 for the progress record overwritten by a later one. *)
Lemma stored_game_data_last_write_wins_witness :
  let later := VObj [("level", VNum 4); ("hero", VStr "Ragnar")] in
  (Demo.JSON_stringify later = Some (Demo.JSON_text later) ∧
   Demo.JSON_parse (Demo.JSON_text later) = Some later) ∧
  let st1 := caches_of (run (demo_message (STORE_GAME_DATA Demo.progress [])) installed) in
  let st2 := caches_of (run (demo_message (STORE_GAME_DATA later [])) st1) in
  posted (trace_of (run (demo_message (GET_STORED_DATA [7%nat])) st2))
  = [PostMessage 7 (VObj [("data", later)])].
Proof.
  intros later.
  assert (Hparse : Demo.JSON_parse (Demo.JSON_text later) = Some later)
    by (vm_compute; reflexivity).
  split; [by split|].
  exact (proj1 (stored_game_data_last_write_wins
                  Demo.origin Demo.base Demo.JSON_parse Demo.JSON_stringify
                  installed Demo.progress later (Demo.JSON_text later) [] [] [] 7%nat
                  eq_refl Hparse)).
Defined.

(** X11 with the reply port 7. *)
Lemma store_without_game_data_reads_back_null_witness :
  (Demo.JSON_stringify VUndefined = None ∧ Demo.JSON_parse EmptyString = None) ∧
  let stored :=
    caches_of (run (demo_message {| data := VObj [("type", VStr "STORE_GAME_DATA")];
                                    ports := [] |}) installed) in
  trace_of (run (demo_message (GET_STORED_DATA [7%nat])) stored)
  = [ConsoleLog "Service Worker: Message received";
     ConsoleError "Service Worker: Failed to get game data";
     PostMessage 7 (VObj [("data", VNull)])].
Proof.
  assert (Hparse : Demo.JSON_parse EmptyString = None) by (vm_compute; reflexivity).
  split; [by split|].
  exact (proj2 (store_without_game_data_reads_back_null
                  Demo.origin Demo.base Demo.JSON_parse Demo.JSON_stringify
                  installed [] [] 7%nat eq_refl Hparse)).
Defined.

(** X12 for a message of a type the worker does not know. *)
Lemma unknown_messages_are_ignored_witness :
  let ping := {| data := VObj [("type", VStr "PING")]; ports := [7%nat] |} in
  (JS.strict_eq (message_type ping) (VStr "SKIP_WAITING") = false ∧
   JS.strict_eq (message_type ping) (VStr "GET_VERSION") = false ∧
   JS.strict_eq (message_type ping) (VStr "STORE_GAME_DATA") = false ∧
   JS.strict_eq (message_type ping) (VStr "GET_STORED_DATA") = false) ∧
  caches_of (run (demo_message ping) installed) = installed ∧
  posted (trace_of (run (demo_message ping) installed)) = [].
Proof.
  intros ping.
  assert (Hother : JS.strict_eq (message_type ping) (VStr "SKIP_WAITING") = false ∧
                   JS.strict_eq (message_type ping) (VStr "GET_VERSION") = false ∧
                   JS.strict_eq (message_type ping) (VStr "STORE_GAME_DATA") = false ∧
                   JS.strict_eq (message_type ping) (VStr "GET_STORED_DATA") = false)
    by (vm_compute; by repeat split).
  split; [exact Hother|].
  destruct (unknown_messages_are_ignored
              Demo.origin Demo.base Demo.JSON_parse Demo.JSON_stringify
              installed ping (or_intror Hother))
    as (_ & Hkept & Hposted & _).
  by split.
Defined.

(** X13 with the reply port 7. *)
Lemma version_reply_needs_a_port_witness :
  let ask := {| data := VObj [("type", VStr "GET_VERSION")]; ports := [7%nat] |} in
  message_type ask = VStr "GET_VERSION" ∧
  run (demo_message ask) installed
  = (Ok tt,
     mkWorld installed
             [ConsoleLog "Service Worker: Message received";
              PostMessage 7 (VObj [("version", VStr "blood-eagle-v1.0.0")])]).
Proof.
  intros ask.
  assert (Htype : message_type ask = VStr "GET_VERSION") by reflexivity.
  split; [exact Htype|].
  destruct (version_reply_needs_a_port
              Demo.origin Demo.base Demo.JSON_parse Demo.JSON_stringify
              installed ask Htype) as (Hreply & _).
  exact (Hreply 7%nat [] eq_refl).
Defined.

(** X14 for the passes one day and eight days after the install: the
    game page is gone either way. *)
Lemma cleanup_passes_compose_witness :
  let day := 24 * 60 * 60 * 1000 in
  let now1 := 1700000000000 + day in
  let now2 := 1700000000000 + 8 * day in
  now1 ≤ now2 ∧
  entry (demo_sweep now2 (demo_sweep now1 installed)) CACHE_NAME (url Demo.game_page)
  = entry (demo_sweep now2 installed) CACHE_NAME (url Demo.game_page).
Proof.
  intros day now1 now2.
  assert (Hle : now1 ≤ now2) by (subst day now1 now2; lia).
  split; [exact Hle|].
  exact (proj1 (cleanup_passes_compose Demo.Date_parse now1 now2 installed Hle)
               CACHE_NAME (url Demo.game_page)).
Defined.

(** X16 for an entry whose [date] header is not a date. *)
Lemma entry_with_invalid_date_is_never_swept_witness :
  let r := {| status := 200; rtype := basic; headers := [("date", "yesterday")];
              body := "<html></html>" |} in
  let st := [(CACHE_NAME, {[ identity (demo_resolve "/news.html") := r ]})] in
  (entry st CACHE_NAME (demo_resolve "/news.html") = Some r ∧
   headers_get (headers r) "date" = Some "yesterday" ∧
   "yesterday" ≠ EmptyString ∧
   Demo.Date_parse "yesterday" = None) ∧
  entry (demo_sweep 1800000000000 st) CACHE_NAME (demo_resolve "/news.html") = Some r.
Proof.
  intros r st.
  assert (He : entry st CACHE_NAME (demo_resolve "/news.html") = Some r)
    by (vm_compute; reflexivity).
  assert (Hh : headers_get (headers r) "date" = Some "yesterday")
    by (vm_compute; reflexivity).
  assert (Hne : "yesterday" ≠ EmptyString) by (intros H; discriminate H).
  assert (Hd : Demo.Date_parse "yesterday" = None) by (vm_compute; reflexivity).
  split; [by repeat split|].
  exact (entry_with_invalid_date_is_never_swept
           Demo.Date_parse 1800000000000 st (demo_resolve "/news.html") "yesterday" r
           He Hh Hne Hd).
Defined.

(** X17 for an install next to the cache of version 0.9.0. *)
Lemma handlers_create_no_other_cache_witness :
  let st := [("blood-eagle-v0.9.0", (∅ : Cache))] in
  CACHE_NAME ∈ CacheStorageOps.keys (demo_step 0 (Install (Demo.online "1.0.0")) st) ∧
  (CACHE_NAME ∈ CacheStorageOps.keys st ∨ CACHE_NAME = CACHE_NAME).
Proof.
  intros st.
  assert (Hkeys : CacheStorageOps.keys (demo_step 0 (Install (Demo.online "1.0.0")) st)
                  = ["blood-eagle-v0.9.0"; CACHE_NAME])
    by (vm_compute; reflexivity).
  assert (Hin : CACHE_NAME
                ∈ CacheStorageOps.keys (demo_step 0 (Install (Demo.online "1.0.0")) st))
    by (rewrite Hkeys; apply list_elem_of_further, list_elem_of_here).
  split; [exact Hin|].
  exact (handlers_create_no_other_cache
           Demo.origin Demo.base Demo.JSON_parse Demo.JSON_stringify Demo.Date_parse
           Demo.sync_supported 0 (Install (Demo.online "1.0.0")) st CACHE_NAME Hin).
Defined.

(** X19 on the installed storage. *)
Lemma serving_storage_is_the_current_cache_witness :
  demo_serving installed ∧
  CacheStorageOps.match_ (url Demo.game_page) installed
  = entry installed CACHE_NAME (url Demo.game_page).
Proof.
  assert (Hs : demo_serving installed) by apply activated_after_install_serving.
  split; [exact Hs|].
  exact (proj2 (serving_storage_is_the_current_cache
                  Demo.origin Demo.base Demo.JSON_parse Demo.JSON_stringify
                  Demo.Date_parse Demo.sync_supported installed Hs)
               (url Demo.game_page)).
Defined.

(** X20 for a navigation to a page that was never cached, with the
    network down. *)
Lemma offline_fallback_after_successful_install_witness :
  (without_fragment Demo.origin = Demo.origin ∧
   Demo.base = Demo.origin ++ "/" ∧
   fresh [] ∧
   Forall (λ u, Platform.addable (Demo.online "1.0.0" "GET" u) = true)
          (demo_resolve <$> STATIC_ASSETS) ∧
   mode Demo.other_page = "navigate" ∧
   intercepted_origin Demo.origin (url Demo.other_page) = true ∧
   CacheStorageOps.match_ (url Demo.other_page) installed = None) ∧
  delivered_by Demo.offline Demo.other_page
               (run (demo_fetch Demo.offline Demo.other_page) installed)
  = Some home.
Proof.
  assert (Hbase : Demo.base = Demo.origin ++ "/") by reflexivity.
  assert (Hfresh : fresh []) by (split; [constructor | reflexivity]).
  assert (Hall : Forall (λ u, Platform.addable (Demo.online "1.0.0" "GET" u) = true)
                        (demo_resolve <$> STATIC_ASSETS))
    by (unfold STATIC_ASSETS; rewrite !fmap_cons; repeat constructor).
  assert (Horigin : intercepted_origin Demo.origin (url Demo.other_page) = true)
    by (vm_compute; reflexivity).
  assert (Hmiss : CacheStorageOps.match_ (url Demo.other_page) installed = None)
    by (vm_compute; reflexivity).
  split; [exact (conj eq_refl
                       (conj Hbase (conj Hfresh (conj Hall (conj eq_refl (conj Horigin Hmiss))))))|].
  destruct (offline_fallback_after_successful_install
              Demo.origin Demo.base Demo.JSON_parse Demo.JSON_stringify Demo.Date_parse
              Demo.sync_supported [] (Demo.online "1.0.0") Demo.offline Demo.other_page
              0 0 eq_refl Hbase Hfresh (proj1 (Forall_forall _ _) Hall)
              eq_refl eq_refl Horigin Hmiss eq_refl) as [Hdelivered _].
  rewrite Hdelivered. vm_compute. reflexivity.
Defined.
